(** * Clay: song lists and album lists of the urwid front end

    A shallow embedding of [clay/ui/urwid/songlist.py] and
    [clay/ui/urwid/pages/album.py], and the properties of the song list
    (activation policy, populate, filtering, player notifications, library
    callbacks) and of the album list (sorted populate).

    Python objects that the code shares and mutates in place (the
    [SongListItem] widgets, held by both [walker] and [tracks_walker]) live in
    an object store and are named by references; the collaborators whose code
    is elsewhere (player, track objects, icon tables, [str.lower]) are the
    fields of the class [Collaborators]. *)

From Stdlib Require Import ZArith String Ascii DecimalString.
From Stdlib Require Import Sorting.Sorted Sorting.Permutation.
From stdpp Require Import base option list strings.

(** ** Python strings *)

(** [needle in hay] on [str]: [needle] occurs in [hay] at some offset. *)
Fixpoint str_in (needle hay : string) : bool :=
  String.prefix needle hay ||
  match hay with
  | EmptyString => false
  | String _ hay' => str_in needle hay'
  end.

(** [s[:-1]]: all but the last character (the empty string stays empty). *)
Fixpoint str_drop_last (s : string) : string :=
  match s with
  | EmptyString => EmptyString
  | String _ EmptyString => EmptyString
  | String c s' => String c (str_drop_last s')
  end.

(** ['{}'.format(n)] for a length. *)
Definition str_of_nat (n : nat) : string :=
  NilEmpty.string_of_uint (Nat.to_uint n).

(** ** States and tracks *)

(** [States] of [clay.ui.urwid.variables]. *)
Module States.
Inductive t := idle | loading | playing | paused.

#[global] Instance eq_dec : EqDecision t.
Proof. solve_decision. Defined.
End States.

(** A [Track] is an object of [clay.core.gp]; the song list only holds
    references to tracks and reads their attributes. *)
Module Track.
(** The identity of a Track object. *)
Definition t := N.

(** The attributes the song list reads.  [id] is the identity of the object
    bound to [track.id], which is all that [is] observes of it. *)
Record attrs := mk_attrs {
  id : N;
  title : string;
  artist : string;
  album_name : string;
  duration : Z;
  rating : Z;
  explicit_rating : Z
}.

(** Modelled from the spec: [Track.__eq__].  The class is not part of
    [songlist.py]; the spec has tracks match "by identity", so [a == b]
    compares the two references. *)
Definition eqb (a b : t) : bool := N.eqb a b.
End Track.

(** The collaborators of the song list whose code lives in other modules. *)
Class Collaborators := {
  (** [clay.core.gp]: the attributes of each track object. *)
  track_attrs : Track.t -> Track.attrs;
  (** [Icons.ratings] and [Icons.explicit] of [clay.ui.urwid.variables],
      indexed by a track's rating and explicit rating (every track has an
      icon). *)
  Icons_ratings : Z -> string;
  Icons_explicit : Z -> string;
  (** [str.lower]. *)
  str_lower : string -> string;
  (** The player object and its methods. *)
  Player : Type;
  player_play_pause : Player -> Player;
  player_goto_track : Track.t -> Player -> Player;
  player_append_to_queue : Track.t -> Player -> Player;
  player_remove_from_queue : Track.t -> Player -> Player;
  player_load_queue : list Track.t -> Z -> Player -> Player;
  player_clear_queue : Player -> Player;
  player_create_station_from_track : Track.t -> Player -> Player;
  player_get_current_track : Player -> option Track.t;
  player_get_queue_tracks : Player -> list Track.t
}.

(** [a.id is b.id] for two tracks. *)
Definition track_id_is `{Collaborators} (a b : Track.t) : bool :=
  N.eqb (Track.id (track_attrs a)) (Track.id (track_attrs b)).

(** ** SongListItem *)

(** The signals of [SongListItem.signals]. *)
Inductive Signal :=
  | sig_activate
  | sig_play
  | sig_append_requested
  | sig_unappend_requested
  | sig_clear_queue
  | sig_station_requested
  | sig_context_menu_requested.

Module SongListItem.
(** The attributes of one item.  The two display lines are recomputed from
    these by [update_text] on every change and hold no state of their own. *)
Record t := mk {
  track : Track.t;
  rating : string;
  explicit : string;
  index : Z;
  state : States.t;
  is_focused : bool
}.

Section Methods.
Context `{Collaborators}.

(** [SongListItem.__init__]. *)
Definition init (track : Track.t) : t :=
  {| track := track;
     rating := Icons_ratings (Track.rating (track_attrs track));
     explicit := Icons_explicit (Track.explicit_rating (track_attrs track));
     index := 0;
     state := States.idle;
     is_focused := false |}.

Definition set_state (s : States.t) (self : t) : t :=
  {| track := track self; rating := rating self; explicit := explicit self;
     index := index self; state := s; is_focused := is_focused self |}.

Definition set_index (i : Z) (self : t) : t :=
  {| track := track self; rating := rating self; explicit := explicit self;
     index := i; state := state self; is_focused := is_focused self |}.

Definition set_is_focused (b : bool) (self : t) : t :=
  {| track := track self; rating := rating self; explicit := explicit self;
     index := index self; state := state self; is_focused := b |}.

(** [u'{} - {} {}'.format(artist, title, rating)]. *)
Definition full_title (self : t) : string :=
  Track.artist (track_attrs (track self)) +:+ " - " +:+
  Track.title (track_attrs (track self)) +:+ " " +:+ rating self.

(** [self.state in (States.loading, States.playing, States.paused)]. *)
Definition is_currently_played (self : t) : bool :=
  bool_decide (state self ∈ [States.loading; States.playing; States.paused]).

(** The intent methods: each returns the item as it leaves it and the
    signals it sends, in order. *)
Definition activate (self : t) : t * list Signal := (self, [sig_activate]).

Definition clear_queue (self : t) : t * list Signal :=
  (set_is_focused false (set_state States.idle self), [sig_clear_queue]).

Definition play (self : t) : t * list Signal := (self, [sig_play]).

Definition append (self : t) : t * list Signal := (self, [sig_append_requested]).

Definition unappend (self : t) : t * list Signal :=
  if negb (is_currently_played self) then (self, [sig_unappend_requested])
  else (self, []).

Definition request_station (self : t) : t * list Signal :=
  (self, [sig_station_requested]).

Definition show_context_menu (self : t) : t * list Signal :=
  (self, [sig_context_menu_requested]).

End Methods.
End SongListItem.

(** ** The world of one song list *)

(** What a list walker holds: a [SongListItem] (by reference into the item
    store) or a placeholder [urwid.Text]. *)
Inductive Widget :=
  | SongItem (r : nat)
  | Text (text : string).

(** The callbacks registered with [app.append_cancel_action]. *)
Inductive CancelAction :=
  | cancel_end_filtering
  | cancel_popup_close.

(** The state one [SongListBox] reads and writes: its own attributes, the
    store of the [SongListItem] objects it created, and the shared objects
    it reaches ([app], [hotkey_manager], [player]).  [walker_focus] is the
    position last given to [walker.set_focus]; what the urwid walker makes
    of its focus when the list itself is assigned is not part of the
    model, so the field speaks for the widget only where the code calls
    [set_focus] or leaves the walker alone. *)
Record World `{Collaborators} := mkWorld {
  items : list SongListItem.t;
  tracks : list Track.t;
  walker : list Widget;
  walker_focus : option nat;
  tracks_walker : list Widget;
  filter_query : string;
  filter_box : string;
  filter_info : string;
  filter_panel_shown : bool;
  popup : option nat;
  current_page_slug : string;
  current_page_append : bool;
  cancel_actions : list CancelAction;
  hotkey_filtering : bool;
  player : Player
}.

Section WorldUpdates.
Context `{Collaborators}.

Definition set_items (v : list SongListItem.t) (w : World) : World :=
  mkWorld _ v (tracks w) (walker w) (walker_focus w) (tracks_walker w)
    (filter_query w) (filter_box w) (filter_info w) (filter_panel_shown w)
    (popup w) (current_page_slug w) (current_page_append w)
    (cancel_actions w) (hotkey_filtering w) (player w).

Definition set_tracks (v : list Track.t) (w : World) : World :=
  mkWorld _ (items w) v (walker w) (walker_focus w) (tracks_walker w)
    (filter_query w) (filter_box w) (filter_info w) (filter_panel_shown w)
    (popup w) (current_page_slug w) (current_page_append w)
    (cancel_actions w) (hotkey_filtering w) (player w).

Definition set_walker (v : list Widget) (w : World) : World :=
  mkWorld _ (items w) (tracks w) v (walker_focus w) (tracks_walker w)
    (filter_query w) (filter_box w) (filter_info w) (filter_panel_shown w)
    (popup w) (current_page_slug w) (current_page_append w)
    (cancel_actions w) (hotkey_filtering w) (player w).

Definition set_walker_focus (v : option nat) (w : World) : World :=
  mkWorld _ (items w) (tracks w) (walker w) v (tracks_walker w)
    (filter_query w) (filter_box w) (filter_info w) (filter_panel_shown w)
    (popup w) (current_page_slug w) (current_page_append w)
    (cancel_actions w) (hotkey_filtering w) (player w).

Definition set_tracks_walker (v : list Widget) (w : World) : World :=
  mkWorld _ (items w) (tracks w) (walker w) (walker_focus w) v
    (filter_query w) (filter_box w) (filter_info w) (filter_panel_shown w)
    (popup w) (current_page_slug w) (current_page_append w)
    (cancel_actions w) (hotkey_filtering w) (player w).

Definition set_filter_query (v : string) (w : World) : World :=
  mkWorld _ (items w) (tracks w) (walker w) (walker_focus w) (tracks_walker w)
    v (filter_box w) (filter_info w) (filter_panel_shown w)
    (popup w) (current_page_slug w) (current_page_append w)
    (cancel_actions w) (hotkey_filtering w) (player w).

Definition set_filter_box (v : string) (w : World) : World :=
  mkWorld _ (items w) (tracks w) (walker w) (walker_focus w) (tracks_walker w)
    (filter_query w) v (filter_info w) (filter_panel_shown w)
    (popup w) (current_page_slug w) (current_page_append w)
    (cancel_actions w) (hotkey_filtering w) (player w).

Definition set_filter_info (v : string) (w : World) : World :=
  mkWorld _ (items w) (tracks w) (walker w) (walker_focus w) (tracks_walker w)
    (filter_query w) (filter_box w) v (filter_panel_shown w)
    (popup w) (current_page_slug w) (current_page_append w)
    (cancel_actions w) (hotkey_filtering w) (player w).

Definition set_filter_panel_shown (v : bool) (w : World) : World :=
  mkWorld _ (items w) (tracks w) (walker w) (walker_focus w) (tracks_walker w)
    (filter_query w) (filter_box w) (filter_info w) v
    (popup w) (current_page_slug w) (current_page_append w)
    (cancel_actions w) (hotkey_filtering w) (player w).

Definition set_popup (v : option nat) (w : World) : World :=
  mkWorld _ (items w) (tracks w) (walker w) (walker_focus w) (tracks_walker w)
    (filter_query w) (filter_box w) (filter_info w) (filter_panel_shown w)
    v (current_page_slug w) (current_page_append w)
    (cancel_actions w) (hotkey_filtering w) (player w).

Definition set_cancel_actions (v : list CancelAction) (w : World) : World :=
  mkWorld _ (items w) (tracks w) (walker w) (walker_focus w) (tracks_walker w)
    (filter_query w) (filter_box w) (filter_info w) (filter_panel_shown w)
    (popup w) (current_page_slug w) (current_page_append w)
    v (hotkey_filtering w) (player w).

Definition set_hotkey_filtering (v : bool) (w : World) : World :=
  mkWorld _ (items w) (tracks w) (walker w) (walker_focus w) (tracks_walker w)
    (filter_query w) (filter_box w) (filter_info w) (filter_panel_shown w)
    (popup w) (current_page_slug w) (current_page_append w)
    (cancel_actions w) v (player w).

Definition set_player (v : Player) (w : World) : World :=
  mkWorld _ (items w) (tracks w) (walker w) (walker_focus w) (tracks_walker w)
    (filter_query w) (filter_box w) (filter_info w) (filter_panel_shown w)
    (popup w) (current_page_slug w) (current_page_append w)
    (cancel_actions w) (hotkey_filtering w) v.

(** The page shown is chosen by the application, not by the song list. *)
Definition set_current_page (slug : string) (append : bool) (w : World) : World :=
  mkWorld _ (items w) (tracks w) (walker w) (walker_focus w) (tracks_walker w)
    (filter_query w) (filter_box w) (filter_info w) (filter_panel_shown w)
    (popup w) slug append
    (cancel_actions w) (hotkey_filtering w) (player w).

(** [SongListBox.__init__] on a page, with the player as it stands. *)
Definition new_world (slug : string) (append : bool) (p : Player) : World :=
  mkWorld _ [] [] [] None [] "" "" "" false None slug append [] false p.

End WorldUpdates.

(** ** SongListBox *)

Module SongListBox.
Section Methods.
Context `{Collaborators}.

Definition filter_prefix : string := "> ".

(** [self.walker.set_focus(i)]. *)
Definition set_focus (i : nat) (w : World) : World :=
  set_walker_focus (Some i) w.

(** [start_filtering]: guarded by [hotkey_manager.filtering]. *)
Definition start_filtering (w : World) : World :=
  if negb (hotkey_filtering w) then
    let w := set_filter_panel_shown true w in
    let w := set_cancel_actions (cancel_actions w ++ [cancel_end_filtering]) w in
    let w := set_filter_query "" w in
    let w := set_hotkey_filtering true w in
    let w := set_tracks_walker (walker w) w in
    set_filter_box filter_prefix w
  else w.

(** The test of [get_filtered_items]:
    [self.filter_query.lower() in songitem.full_title.lower()]. *)
Definition title_matches (query : string) (songitem : SongListItem.t) : bool :=
  str_in (str_lower query) (str_lower (SongListItem.full_title songitem)).

(** The loop of [get_filtered_items] over [self.tracks_walker]; a widget
    that is no [SongListItem] is skipped.  (A reference always names a
    stored item; the [None] branch is never taken.) *)
Fixpoint get_filtered_items_loop (w : World) (ws matches : list Widget)
  : list Widget :=
  match ws with
  | [] => matches
  | Text _ :: ws' => get_filtered_items_loop w ws' matches
  | SongItem r :: ws' =>
      match items w !! r with
      | Some songitem =>
          if title_matches (filter_query w) songitem
          then get_filtered_items_loop w ws' (matches ++ [SongItem r])
          else get_filtered_items_loop w ws' matches
      | None => get_filtered_items_loop w ws' matches
      end
  end.

Definition get_filtered_items (w : World) : list Widget :=
  get_filtered_items_loop w (tracks_walker w) [].

(** [end_filtering]: returns at once when the filter box shows no text. *)
Definition end_filtering (w : World) : World :=
  if String.eqb (filter_box w) "" then w
  else
    let w := set_filter_panel_shown false w in
    let w := set_hotkey_filtering false w in
    let w := set_filter_box "" w in
    let w := set_filter_info "" w in
    set_walker (tracks_walker w) w.

(** The loop of [update_indexes]: [set_index(i)] on the i-th widget.  A
    placeholder [urwid.Text] has no [set_index]: the call raises. *)
Fixpoint update_indexes_loop (ws : list Widget) (i : nat)
  (store : list SongListItem.t) : option (list SongListItem.t) :=
  match ws with
  | [] => Some store
  | SongItem r :: ws' =>
      update_indexes_loop ws' (S i)
        (alter (SongListItem.set_index (Z.of_nat i)) r store)
  | Text _ :: _ => None
  end.

Definition update_indexes (w : World) : option World :=
  store ← update_indexes_loop (walker w) 0 (items w);
  Some (set_items store w).

(** The part of [perform_filtering] after the query is updated. *)
Definition show_matches (w : World) : option World :=
  let w := set_filter_box (filter_prefix +:+ filter_query w) w in
  let matches := get_filtered_items w in
  let w := set_filter_info (str_of_nat (length matches) +:+ " matches") w in
  let w := set_walker matches w in
  let w := set_focus 0 w in
  if String.eqb (current_page_slug w) "library" then update_indexes w
  else Some w.

(** [perform_filtering(char)]. *)
Definition perform_filtering (char : string) (w : World) : option World :=
  if String.eqb char "backspace" then
    if String.eqb (filter_query w) "" then Some (end_filtering w)
    else show_matches (set_filter_query (str_drop_last (filter_query w)) w)
  else show_matches (set_filter_query (filter_query w +:+ char) w).

(** [set_placeholder(text)]. *)
Definition set_placeholder (text : string) (w : World) : World :=
  set_walker [Text text] w.

(** The loop of [tracks_to_songlist]: one new [SongListItem] per track,
    stored at the next free reference; the first track equal to the
    player's current one gives [current_index]. *)
Fixpoint tracks_to_songlist_loop (current_track : option Track.t)
  (ts : list Track.t) (index : nat) (store : list SongListItem.t)
  (songitems : list Widget) (current_index : option nat)
  : list SongListItem.t * list Widget * option nat :=
  match ts with
  | [] => (store, songitems, current_index)
  | track :: ts' =>
      let songitem := SongListItem.init track in
      let is_current :=
        match current_track with
        | Some current => Track.eqb current track
        | None => false
        end in
      let songitem :=
        if is_current then SongListItem.set_state States.loading songitem
        else songitem in
      let current_index :=
        if is_current then
          match current_index with
          | None => Some index
          | Some _ => current_index
          end
        else current_index in
      tracks_to_songlist_loop current_track ts' (S index)
        (store ++ [songitem]) (songitems ++ [SongItem (length store)])
        current_index
  end.

Definition tracks_to_songlist (ts : list Track.t) (w : World)
  : World * (list Widget * option nat) :=
  let '(store, songitems, current_index) :=
    tracks_to_songlist_loop (player_get_current_track (player w)) ts 0
      (items w) [] None in
  (set_items store w, (songitems, current_index)).

(** [populate(tracks)]. *)
Definition populate (ts : list Track.t) (w : World) : option World :=
  let w := set_tracks ts w in
  let '(w, (songitems, current_index)) := tracks_to_songlist (tracks w) w in
  let w := set_walker songitems w in
  w ← update_indexes w;
  match current_index with
  | Some i => Some (set_focus i w)
  | None =>
      if bool_decide (1 ≤ length (walker w)) then Some (set_focus 0 w)
      else Some w
  end.

(** [append_track(track)]. *)
Definition append_track (track : Track.t) (w : World) : option World :=
  let '(w, (songitems, _)) := tracks_to_songlist [track] w in
  songitem ← songitems !! 0;
  let w := set_walker (walker w ++ [songitem]) w in
  update_indexes w.

(** [item_play_pause(songitem)]. *)
Definition item_play_pause (r : nat) (w : World) : World :=
  match items w !! r with
  | Some songitem =>
      if SongListItem.is_currently_played songitem
      then set_player (player_play_pause (player w)) w
      else w
  | None => w
  end.

(** [item_append_requested(songitem)]. *)
Definition item_append_requested (r : nat) (w : World) : World :=
  match items w !! r with
  | Some songitem =>
      set_player (player_append_to_queue (SongListItem.track songitem) (player w)) w
  | None => w
  end.

(** [item_unappend_requested(songitem)]. *)
Definition item_unappend_requested (r : nat) (w : World) : World :=
  match items w !! r with
  | Some songitem =>
      set_player (player_remove_from_queue (SongListItem.track songitem) (player w)) w
  | None => w
  end.

(** [item_station_requested(songitem)]. *)
Definition item_station_requested (r : nat) (w : World) : World :=
  match items w !! r with
  | Some songitem =>
      set_player
        (player_create_station_from_track (SongListItem.track songitem) (player w)) w
  | None => w
  end.

(** [item_activated(songitem)]. *)
Definition item_activated (r : nat) (w : World) : World :=
  match items w !! r with
  | Some songitem =>
      let w :=
        if SongListItem.is_currently_played songitem then
          set_player (player_play_pause (player w)) w
        else if String.eqb (current_page_slug w) "queue" then
          set_player (player_goto_track (SongListItem.track songitem) (player w)) w
        else if current_page_append w || hotkey_filtering w then
          item_append_requested r w
        else
          set_player
            (player_load_queue (tracks w) (SongListItem.index songitem) (player w)) w in
      if hotkey_filtering w && negb (String.eqb (current_page_slug w) "search")
      then set_walker (get_filtered_items w) w
      else w
  | None => w
  end.

(** [context_menu_requested(songitem)]: the popup is built for the item and
    its [close] becomes a cancel action. *)
Definition context_menu_requested (r : nat) (w : World) : World :=
  let w := set_popup (Some r) w in
  set_cancel_actions (cancel_actions w ++ [cancel_popup_close]) w.

(** [clear_queue(_)]. *)
Definition clear_queue (w : World) : World :=
  let w := set_focus 0 w in
  set_player (player_clear_queue (player w)) w.

(** The handlers that [tracks_to_songlist] connects to each item's
    signals. *)
Definition emit_signal (r : nat) (s : Signal) (w : World) : World :=
  match s with
  | sig_activate => item_activated r w
  | sig_play => item_play_pause r w
  | sig_append_requested => item_append_requested r w
  | sig_unappend_requested => item_unappend_requested r w
  | sig_clear_queue => clear_queue w
  | sig_station_requested => item_station_requested r w
  | sig_context_menu_requested => context_menu_requested r w
  end.

(** A method call on the item at [r]: the item is updated in the store and
    each signal it sends runs its handler. *)
Definition call_item (method : SongListItem.t -> SongListItem.t * list Signal)
  (r : nat) (w : World) : World :=
  match items w !! r with
  | Some songitem =>
      let '(songitem', signals) := method songitem in
      foldl (fun w s => emit_signal r s w)
        (set_items (<[r := songitem']> (items w)) w) signals
  | None => w
  end.

(** The test of [track_changed]:
    [songitem.track == track or
     (self.app.current_page.slug != 'queue' and songitem.track.id is track.id)]. *)
Definition track_changed_matches (slug : string) (track : Track.t)
  (songitem : SongListItem.t) : bool :=
  Track.eqb (SongListItem.track songitem) track ||
  (negb (String.eqb slug "queue") &&
   track_id_is (SongListItem.track songitem) track).

(** The loop of [track_changed] over [enumerate(self.walker)]. *)
Fixpoint track_changed_loop (slug : string) (track : Track.t)
  (ws : list Widget) (i : nat) (store : list SongListItem.t)
  (focus : option nat) : list SongListItem.t * option nat :=
  match ws with
  | [] => (store, focus)
  | Text _ :: ws' => track_changed_loop slug track ws' (S i) store focus
  | SongItem r :: ws' =>
      match store !! r with
      | Some songitem =>
          if track_changed_matches slug track songitem then
            track_changed_loop slug track ws' (S i)
              (<[r := SongListItem.set_state States.loading songitem]> store)
              (Some i)
          else if negb (bool_decide (SongListItem.state songitem = States.idle)) then
            track_changed_loop slug track ws' (S i)
              (<[r := SongListItem.set_state States.idle songitem]> store)
              focus
          else track_changed_loop slug track ws' (S i) store focus
      | None => track_changed_loop slug track ws' (S i) store focus
      end
  end.

(** [track_changed(track)]. *)
Definition track_changed (track : Track.t) (w : World) : World :=
  let '(store, focus) :=
    track_changed_loop (current_page_slug w) track (walker w) 0
      (items w) (walker_focus w) in
  set_walker_focus focus (set_items store w).

(** The loop of [media_state_changed]. *)
Fixpoint media_state_changed_loop (current_track : Track.t) (s : States.t)
  (ws : list Widget) (store : list SongListItem.t) : list SongListItem.t :=
  match ws with
  | [] => store
  | Text _ :: ws' => media_state_changed_loop current_track s ws' store
  | SongItem r :: ws' =>
      match store !! r with
      | Some songitem =>
          if Track.eqb (SongListItem.track songitem) current_track then
            media_state_changed_loop current_track s ws'
              (<[r := SongListItem.set_state s songitem]> store)
          else media_state_changed_loop current_track s ws' store
      | None => media_state_changed_loop current_track s ws' store
      end
  end.

(** [media_state_changed(is_loading, is_playing)]. *)
Definition media_state_changed (is_loading is_playing : bool) (w : World)
  : World :=
  match player_get_current_track (player w) with
  | None => w
  | Some current_track =>
      let s :=
        if is_loading then States.loading
        else if is_playing then States.playing
        else States.paused in
      set_items (media_state_changed_loop current_track s (walker w) (items w)) w
  end.

End Methods.
End SongListBox.

(** ** SongListBoxPopup: the library callbacks *)

(** The values a completion callback receives as [result] and [error]. *)
Inductive PyVal :=
  | PyNone
  | PyBool (b : bool)
  | PyStr (s : string)
  | PyException (message : string).

(** Truth value of a Python object in [if] and [not]. *)
Definition truthy (v : PyVal) : bool :=
  match v with
  | PyNone => false
  | PyBool b => b
  | PyStr s => negb (String.eqb s "")
  | PyException _ => true
  end.

(** [str(v)]. *)
Definition py_str (v : PyVal) : string :=
  match v with
  | PyNone => "None"
  | PyBool true => "True"
  | PyBool false => "False"
  | PyStr s => s
  | PyException message => message
  end.

Module SongListBoxPopup.

(** [notification_area.notify(msg)]: the area keeps what it was told to
    show, oldest first. *)
Definition notify (msg : string) (notification_area : list string) : list string :=
  notification_area ++ [msg].

(** [on_add_to_my_library(result, error)]. *)
Definition on_add_to_my_library (result error : PyVal)
  (notification_area : list string) : list string :=
  if truthy error || negb (truthy result) then
    notify ("Error while adding track to my library: " +:+
            (if truthy error then py_str error else "reason is unknown :("))
      notification_area
  else notify "Track added to library!" notification_area.

(** [on_remove_from_my_library(result, error)]. *)
Definition on_remove_from_my_library (result error : PyVal)
  (notification_area : list string) : list string :=
  if truthy error || negb (truthy result) then
    notify ("Error while removing track from my library: " +:+
            (if truthy error then py_str error else "reason is unknown :("))
      notification_area
  else notify "Track removed from library!" notification_area.

End SongListBoxPopup.

(** ** AlbumListBox *)

Module AlbumListBox.
Section Methods.
(** Albums are objects of [clay.core.gp]; [album_lt a b] is [a < b], the
    comparison [sorted] uses on its keys. *)
Context {Album : Type} (album_lt : Album -> Album -> bool).

(** [AbstractListItem(data, icon)] of the [page] module. *)
Record AbstractListItem := mk_item {
  item_data : Album;
  item_icon : string
}.

(** [albums[key]] on a dict, kept in insertion order; a missing key raises. *)
Fixpoint getitem (albums : list (string * Album)) (key : string) : option Album :=
  match albums with
  | [] => None
  | (k, album) :: rest =>
      if String.eqb k key then Some album else getitem rest key
  end.

(** One step of a stable insertion: [x] goes before the first element whose
    key is greater than its own. *)
Fixpoint insert_keyed {A : Type} (x : Album * A) (l : list (Album * A))
  : list (Album * A) :=
  match l with
  | [] => [x]
  | y :: l' =>
      if album_lt (fst x) (fst y) then x :: y :: l'
      else y :: insert_keyed x l'
  end.

(** [sorted(l, key=key)]: every key is computed, then the elements are
    put in key order, equal keys keeping their order. *)
Definition py_sorted {A : Type} (key : A -> option Album) (l : list A)
  : option (list A) :=
  keyed ← mapM (fun x => k ← key x; Some (k, x)) l;
  Some ((foldl (fun acc x => insert_keyed x acc) [] keyed).*2).

(** [populate(albums)]: the new content of [self.walker]. *)
Definition populate (albums : list (string * Album)) (icon : string)
  : option (list AbstractListItem) :=
  keys ← py_sorted (getitem albums) albums.*1;
  mapM (fun key => album ← getitem albums key; Some (mk_item album icon)) keys.

End Methods.
End AlbumListBox.

(** ** The display lines of an item *)

(** [str(z)] for an int. *)
Definition str_of_Z (z : Z) : string := NilZero.string_of_int (Z.to_int z).

Fixpoint str_repeat (c : ascii) (n : nat) : string :=
  match n with
  | O => EmptyString
  | S n' => String c (str_repeat c n')
  end.

(** ['{:Wd}'.format(z)]: the number, right-aligned with spaces to at least
    [width] characters. *)
Definition format_d (width : nat) (z : Z) : string :=
  str_repeat " " (width - String.length (str_of_Z z)) +:+ str_of_Z z.

(** ['{:0Wd}'.format(z)]: the sign, then zeros up to [width] characters,
    then the digits. *)
Definition format_0d (width : nat) (z : Z) : string :=
  let sign := if (z <? 0)%Z then "-" else "" in
  let digits := str_of_Z (Z.abs z) in
  sign +:+
  str_repeat "0" (width - String.length sign - String.length digits) +:+
  digits.

(** [t[b]] on a pair indexed by a bool: [False] is 0, [True] is 1. *)
Definition pair_get {A} (t : A * A) (b : bool) : A := if b then t.2 else t.1.

Module Line1.
(** The text of [_left] and [_right] and the attribute of [_wrap]. *)
Record t := mk { _left : string; _right : string; _wrap : string }.

Definition _attributes (s : States.t) : string * string :=
  match s with
  | States.idle => ("line1", "line1_focus")
  | States.loading => ("line1_active", "line1_active_focus")
  | States.playing => ("line1_active", "line1_active_focus")
  | States.paused => ("line1_active", "line1_active_focus")
  end.

(** [_Line1.__init__]. *)
Definition init : t := mk "" "x" "line1".

(** [duration // (1000 * 60)] and [(duration // 1000) % 60]. *)
Definition minutes (duration : Z) : Z := (duration / (1000 * 60))%Z.
Definition seconds (duration : Z) : Z := ((duration / 1000) mod 60)%Z.

Section Methods.
Context `{Collaborators}.
(** [Icons.state[state.value]] and
    [settings_manager.get_is_file_cached(track.filename)]. *)
Context (Icons_state : States.t -> string) (is_file_cached : Track.t -> bool).

(** [update_text(track)], where [track] is the song item shown. *)
Definition update_text (track : SongListItem.t) (self : t) : t :=
  let self :=
    mk (format_d 3 (SongListItem.index track + 1) +:+ " " +:+
        Icons_state (SongListItem.state track) +:+ " " +:+
        Track.title (track_attrs (SongListItem.track track)) +:+ " [" +:+
        format_0d 2 (minutes (Track.duration (track_attrs (SongListItem.track track))))
        +:+ ":" +:+
        format_0d 2 (seconds (Track.duration (track_attrs (SongListItem.track track))))
        +:+ "]")
       (_right self) (_wrap self) in
  let self :=
    if is_file_cached (SongListItem.track track)
    then mk (_left self) " ▼ Cached" (_wrap self)
    else mk (_left self) "" (_wrap self) in
  let self :=
    mk (_left self)
       (SongListItem.explicit track +:+ " " +:+ SongListItem.rating track)
       (_wrap self) in
  mk (_left self) (_right self)
     (pair_get (_attributes (SongListItem.state track))
               (SongListItem.is_focused track)).

End Methods.
End Line1.

Module Line2.
(** The text of [_content] and the attribute of [_wrap]. *)
Record t := mk { _content : string; _wrap : string }.

Definition _attributes (s : States.t) : string * string :=
  match s with
  | States.idle => ("line2", "line2_focus")
  | States.loading => ("line2", "line2_focus")
  | States.playing => ("line2", "line2_focus")
  | States.paused => ("line2", "line2_focus")
  end.

(** [_Line2.__init__]. *)
Definition init : t := mk "" "line2".

Section Methods.
Context `{Collaborators}.

(** [update_text(track)]. *)
Definition update_text (track : SongListItem.t) (self : t) : t :=
  let self :=
    mk ("      " +:+ Track.artist (track_attrs (SongListItem.track track)) +:+
        " ― " +:+ Track.album_name (track_attrs (SongListItem.track track)))
       (_wrap self) in
  mk (_content self)
     (pair_get (_attributes (SongListItem.state track))
               (SongListItem.is_focused track)).

End Methods.
End Line2.

(** ** remove_track *)

#[global] Instance Widget_eq_dec : EqDecision Widget.
Proof. solve_decision. Defined.

(** [l.remove(x)] for an [x] taken from [l]: the first element equal to [x]
    goes. *)
Fixpoint list_remove_first (x : Widget) (l : list Widget) : list Widget :=
  match l with
  | [] => []
  | y :: l' => if decide (x = y) then l' else y :: list_remove_first x l'
  end.

Section RemoveTrack.
Context `{Collaborators}.

(** The loop of [remove_track]: [for songlistitem in self.walker] reads
    position [i] of the list as it is at that moment and moves on to
    [i + 1], while the body removes from the same list.  Reading [.track]
    of a placeholder raises.  [fuel] bounds the rounds; the length of the
    list and one more is enough. *)
Fixpoint remove_track_loop (fuel : nat) (track : Track.t)
  (store : list SongListItem.t) (ws : list Widget) (i : nat)
  : option (list Widget) :=
  match fuel with
  | O => Some ws
  | S fuel' =>
      match ws !! i with
      | None => Some ws
      | Some (Text _) => None
      | Some (SongItem r) =>
          match store !! r with
          | Some songlistitem =>
              if Track.eqb (SongListItem.track songlistitem) track
              then remove_track_loop fuel' track store
                     (list_remove_first (SongItem r) ws) (S i)
              else remove_track_loop fuel' track store ws (S i)
          | None => remove_track_loop fuel' track store ws (S i)
          end
      end
  end.

(** [remove_track(track)]. *)
Definition remove_track (track : Track.t) (w : World) : option World :=
  ws ← remove_track_loop (S (length (walker w))) track (items w) (walker w) 0;
  SongListBox.update_indexes (set_walker ws w).

End RemoveTrack.

(** ** The context menu *)

(** What a button of the popup runs. *)
Inductive PopupAction :=
  | add_to_my_library
  | remove_from_my_library
  | create_station
  | remove_from_queue
  | append_to_queue
  | copy_url
  | close.

(** The widgets of [SongListBoxPopup.options]: a text line with its
    attribute, a divider, or a button with its label and callback. *)
Inductive PopupOption :=
  | option_text (text attr : string)
  | option_divider
  | option_button (label : string) (on_press : PopupAction).

(** Requests the popup hands to other modules: the two asynchronous library
    calls (their callbacks are [on_add_to_my_library] and
    [on_remove_from_my_library]) and the clipboard. *)
Inductive Request :=
  | add_to_my_library_async (track : Track.t)
  | remove_from_my_library_async (track : Track.t)
  | clipboard_copy (url : string).

(** The song list together with what its frame shows as body (the overlay
    with the popup, or the plain content) and the requests sent so far. *)
Record Frame `{Collaborators} := mkFrame {
  world : World;
  body_is_overlay : bool;
  requests : list Request
}.

Section ContextMenu.
Context `{Collaborators}.
(** [gp.get_track_by_id(track.id)] is truthy; [track.source]; [str(track.id)];
    [track.cached_url]; and [app.unregister_cancel_action]. *)
Context (in_library : Track.t -> bool)
        (track_source : Track.t -> string)
        (track_id_str : Track.t -> string)
        (cached_url : Track.t -> option string)
        (unregister_cancel_action :
           CancelAction -> list CancelAction -> list CancelAction).

(** [_add_item(name, func)]. *)
Definition _add_item (name : string) (func : PopupAction)
  (options : list PopupOption) : list PopupOption :=
  (options ++ [option_divider]) ++ [option_button name func].

(** [SongListBoxPopup.__init__(songitem)]: the options, given the tracks of
    the player's queue. *)
Definition popup_options (songitem : SongListItem.t)
  (queue_tracks : list Track.t) : list PopupOption :=
  let options :=
    [option_text (" " +:+ SongListItem.full_title songitem) "panel";
     option_text (" Source: " +:+ track_source (SongListItem.track songitem))
       "panel_divider";
     option_text (" StoreID: " +:+ track_id_str (SongListItem.track songitem))
       "panel_divider"] in
  let options :=
    if negb (in_library (SongListItem.track songitem))
    then _add_item "Add to library" add_to_my_library options
    else _add_item "Remove from library" remove_from_my_library options in
  let options := _add_item "Create station" create_station options in
  let options :=
    if existsb (Track.eqb (SongListItem.track songitem)) queue_tracks
    then _add_item "Remove from queue" remove_from_queue options
    else _add_item "Append to queue" append_to_queue options in
  let options :=
    match cached_url (SongListItem.track songitem) with
    | Some _ => _add_item "Copy URL to clipboard" copy_url options
    | None => options
    end in
  options ++ [option_button "Close" close].

(** [context_menu_requested(songitem)], with the frame's body. *)
Definition context_menu_requested (r : nat) (f : Frame) : Frame :=
  mkFrame _ (SongListBox.context_menu_requested r (world f)) true (requests f).

(** [is_context_menu_visible]. *)
Definition is_context_menu_visible (f : Frame) : bool := body_is_overlay f.

(** [hide_context_menu()]. *)
Definition hide_context_menu (f : Frame) : Frame :=
  if bool_decide (popup (world f) ≠ None) && is_context_menu_visible f then
    let w := world f in
    let w := set_cancel_actions
               (unregister_cancel_action cancel_popup_close (cancel_actions w)) w in
    mkFrame _ (set_popup None w) false (requests f)
  else f.

(** The callback of a button of the popup shown for the item at [r]; each
    ends with [self.close()], whose signal runs [hide_context_menu]. *)
Definition popup_press (action : PopupAction) (r : nat) (f : Frame) : Frame :=
  match items (world f) !! r with
  | Some songitem =>
      let track := SongListItem.track songitem in
      let f :=
        match action with
        | add_to_my_library =>
            mkFrame _ (world f) (body_is_overlay f)
              (requests f ++ [add_to_my_library_async track])
        | remove_from_my_library =>
            mkFrame _ (world f) (body_is_overlay f)
              (requests f ++ [remove_from_my_library_async track])
        | create_station =>
            mkFrame _
              (set_player (player_create_station_from_track track
                             (player (world f))) (world f))
              (body_is_overlay f) (requests f)
        | remove_from_queue =>
            mkFrame _
              (set_player (player_remove_from_queue track (player (world f)))
                 (world f))
              (body_is_overlay f) (requests f)
        | append_to_queue =>
            mkFrame _
              (set_player (player_append_to_queue track (player (world f)))
                 (world f))
              (body_is_overlay f) (requests f)
        | copy_url =>
            match cached_url track with
            | Some url =>
                mkFrame _ (world f) (body_is_overlay f)
                  (requests f ++ [clipboard_copy url])
            | None => f
            end
        | close => f
        end in
      hide_context_menu f
  | None => f
  end.

End ContextMenu.

(** ** More notions for the properties *)

Section MoreNotions.
Context `{Collaborators}.

(** The test of [tracks_to_songlist]:
    [current_track is not None and current_track == track]. *)
Definition is_current_track (current_track : option Track.t)
  (track : Track.t) : bool :=
  match current_track with
  | Some current => Track.eqb current track
  | None => false
  end.

(** The item [tracks_to_songlist] makes for a track. *)
Definition new_songitem (current_track : option Track.t) (track : Track.t)
  : SongListItem.t :=
  if is_current_track current_track track
  then SongListItem.set_state States.loading (SongListItem.init track)
  else SongListItem.init track.

(** What [media_state_changed] does to one song item of the walker. *)
Definition media_state_item (current_track : Track.t) (s : States.t)
  (songitem : SongListItem.t) : SongListItem.t :=
  if Track.eqb (SongListItem.track songitem) current_track
  then SongListItem.set_state s songitem
  else songitem.

(** The state [media_state_changed] shows for its two flags. *)
Definition media_state (is_loading is_playing : bool) : States.t :=
  if is_loading then States.loading
  else if is_playing then States.playing
  else States.paused.

(** A widget is a song item. *)
Definition is_song_item (x : Widget) : Prop := ∃ r, x = SongItem r.

(** Two stores that hold, reference by reference, the same items but for
    their indexes: track, icons, state and focus flag agree. *)
Definition same_but_index (store store' : list SongListItem.t) : Prop :=
  Forall2 (fun a b => SongListItem.set_index (SongListItem.index b) a = b)
    store store'.

(** A widget is a song item of the given track. *)
Definition widget_has_track (store : list SongListItem.t) (track : Track.t)
  (x : Widget) : bool :=
  match x with
  | SongItem r =>
      match store !! r with
      | Some songitem => Track.eqb (SongListItem.track songitem) track
      | None => false
      end
  | Text _ => false
  end.

(** What a loop that removes the element it stands on leaves of a list: the
    element after a removed one slides into its place and is never looked
    at. *)
Fixpoint skip_remove (P : Widget -> bool) (ws : list Widget) : list Widget :=
  match ws with
  | [] => []
  | x :: rest =>
      if P x then
        match rest with
        | [] => []
        | y :: rest' => y :: skip_remove P rest'
        end
      else x :: skip_remove P rest
  end.

End MoreNotions.

(** ** Notions the properties are stated with *)

Section Notions.
Context `{Collaborators}.

(** A widget of the snapshot is shown under the filter when it is a song
    item whose title, lower-cased, contains the lower-cased query. *)
Definition shown_by_filter (w : World) (x : Widget) : bool :=
  match x with
  | SongItem r =>
      match items w !! r with
      | Some songitem =>
          str_in (str_lower (filter_query w))
                 (str_lower (SongListItem.full_title songitem))
      | None => false
      end
  | Text _ => false
  end.

(** Two stores that hold, reference by reference, items of the same track
    and rating icon (they may differ in index, state and focus). *)
Definition same_titles (store store' : list SongListItem.t) : Prop :=
  Forall2 (fun a b => SongListItem.track a = SongListItem.track b ∧
                      SongListItem.rating a = SongListItem.rating b)
    store store'.

(** What [track_changed] does to one song item of the walker. *)
Definition track_changed_item (slug : string) (track : Track.t)
  (songitem : SongListItem.t) : SongListItem.t :=
  if SongListBox.track_changed_matches slug track songitem
  then SongListItem.set_state States.loading songitem
  else if negb (bool_decide (SongListItem.state songitem = States.idle))
       then SongListItem.set_state States.idle songitem
       else songitem.

(** The widget at position [i] of [ws] is a song item that matches the
    changed track. *)
Definition matches_at (slug : string) (track : Track.t)
  (store : list SongListItem.t) (ws : list Widget) (i : nat) : Prop :=
  ∃ r songitem, ws !! i = Some (SongItem r) ∧ store !! r = Some songitem ∧
    SongListBox.track_changed_matches slug track songitem = true.

End Notions.

(** ** A sample world

    Four tracks, a player that keeps a queue, and ASCII lower-casing. *)

Definition sample_attrs (track : Track.t) : Track.attrs :=
  match track with
  | 1%N => Track.mk_attrs 101 "Alpha" "Ann" "First" 61000 0 0
  | 2%N => Track.mk_attrs 102 "Beta" "Bob" "First" 62000 5 0
  | 3%N => Track.mk_attrs 103 "Coda" "Cy" "Last" 63000 1 1
  | _ => Track.mk_attrs 104 "Delta" "Di" "Last" 64000 0 0
  end.

Definition ascii_lower (c : ascii) : ascii :=
  let n := nat_of_ascii c in
  if (65 <=? n)%nat && (n <=? 90)%nat then ascii_of_nat (n + 32) else c.

Fixpoint sample_lower (s : string) : string :=
  match s with
  | EmptyString => EmptyString
  | String c s' => String (ascii_lower c) (sample_lower s')
  end.

Record SamplePlayer := mk_player {
  sp_current : option Track.t;
  sp_queue : list Track.t;
  sp_paused : bool
}.

Definition sample_env : Collaborators :=
  {| track_attrs := sample_attrs;
     Icons_ratings := fun _ => "-";
     Icons_explicit := fun _ => "";
     str_lower := sample_lower;
     Player := SamplePlayer;
     player_play_pause := fun p =>
       mk_player (sp_current p) (sp_queue p) (negb (sp_paused p));
     player_goto_track := fun track p =>
       mk_player (Some track) (sp_queue p) false;
     player_append_to_queue := fun track p =>
       mk_player (sp_current p) (sp_queue p ++ [track]) (sp_paused p);
     player_remove_from_queue := fun track p =>
       mk_player (sp_current p)
         (filter (fun t => negb (Track.eqb t track)) (sp_queue p)) (sp_paused p);
     player_load_queue := fun ts i p =>
       mk_player (ts !! Z.to_nat i) ts false;
     player_clear_queue := fun p => mk_player None [] false;
     player_create_station_from_track := fun track p => p;
     player_get_current_track := sp_current;
     player_get_queue_tracks := sp_queue |}.

Definition sample_world (slug : string) (current : option Track.t) : @World sample_env :=
  @new_world sample_env slug false (mk_player current [] false).

(** The list [A; B; C] shown on a page, with the player's current track. *)
Definition sample_populated (slug : string) (current : option Track.t)
  : @World sample_env :=
  default (sample_world slug current)
    (@SongListBox.populate sample_env [1%N; 2%N; 3%N] (sample_world slug current)).

(** The albums page while B plays, after the filter key and then [c]. *)
Definition sample_filtered_c : @World sample_env :=
  let w := @SongListBox.start_filtering sample_env
             (sample_populated "albums" (Some 2%N)) in
  default w (@SongListBox.perform_filtering sample_env "c" w).

(** The queue page after the filter key, with a fourth track appended to
    the queue while the filter box is open. *)
Definition sample_appended : @World sample_env :=
  let w := @SongListBox.start_filtering sample_env
             (sample_populated "queue" None) in
  default w (@SongListBox.append_track sample_env 4%N w).

(** A dict of albums, each album standing for its place in the order. *)
Definition sample_albums : list (string * Z) :=
  [("k1", 20%Z); ("k2", 10%Z); ("k3", 20%Z); ("k4", 5%Z)].


(** The queue page showing [A; B; B; C]: track B twice in a row. *)
Definition sample_duplicates : @World sample_env :=
  default (sample_world "queue" None)
    (@SongListBox.populate sample_env [1%N; 2%N; 2%N; 3%N]
       (sample_world "queue" None)).

(** The albums page while B plays, in its frame, with no popup. *)
Definition sample_frame : @Frame sample_env :=
  @mkFrame sample_env (sample_populated "albums" (Some 2%N)) false [].

(** A dict of albums that is already in order. *)
Definition sample_albums_in_order : list (string * Z) :=
  [("k1", 5%Z); ("k2", 10%Z); ("k3", 10%Z); ("k4", 20%Z)].

(** Tracks with a cached url; cancel actions are dropped by their last
    occurrence. *)
Definition sample_cached_url (track : Track.t) : option string :=
  match track with
  | 1%N => Some "file:///cache/alpha"
  | _ => None
  end.

Fixpoint sample_unregister (action : CancelAction) (actions : list CancelAction)
  : list CancelAction :=
  match actions with
  | [] => []
  | a :: rest =>
      match action, a with
      | cancel_end_filtering, cancel_end_filtering => rest
      | cancel_popup_close, cancel_popup_close => rest
      | _, _ => a :: sample_unregister action rest
      end
  end.
(** The albums page showing [A; B; C] while B plays from the queue
    [A; B; C]. *)
Definition sample_playing_b : @World sample_env :=
  let w := @new_world sample_env "albums" false
             (mk_player (Some 2%N) [1%N; 2%N; 3%N] false) in
  default w (@SongListBox.populate sample_env [1%N; 2%N; 3%N] w).

(** From there: the filter key, [c] (only C is shown), the player moves on
    to A and the list is told so, and the filter is ended. *)
Definition sample_stale_a : @World sample_env :=
  let w := @SongListBox.start_filtering sample_env sample_playing_b in
  let w := default w (@SongListBox.perform_filtering sample_env "c" w) in
  let w := set_player (player_goto_track 1%N (player w)) w in
  let w := @SongListBox.track_changed sample_env 1%N w in
  @SongListBox.end_filtering sample_env w.

(** * Properties *)

Section SongListProperties.
Context `{Collaborators}.
Import SongListBox.

(** ** Items: currently played, unappend *)

Lemma is_currently_played_true (songitem : SongListItem.t) :
  SongListItem.is_currently_played songitem = true ↔
  SongListItem.state songitem = States.loading ∨
  SongListItem.state songitem = States.playing ∨
  SongListItem.state songitem = States.paused.
Proof.
  unfold SongListItem.is_currently_played.
  rewrite bool_decide_eq_true, !elem_of_cons, elem_of_nil. tauto.
Qed.

Lemma is_currently_played_false (songitem : SongListItem.t) :
  SongListItem.is_currently_played songitem = false ↔
  SongListItem.state songitem = States.idle.
Proof.
  rewrite <- not_true_iff_false, is_currently_played_true.
  destruct (SongListItem.state songitem); split; intros Hs;
    try done; try (exfalso; apply Hs; auto; fail);
    intros [?|[?|?]]; done.
Qed.

Lemma set_items_same (w : World) : set_items (items w) w = w.
Proof. by destruct w. Qed.

(** C10: [is_currently_played] holds exactly in the states loading, playing
    and paused; in each of them [unappend] sends no signal and leaves the
    item as it is, and only an idle item sends [unappend-requested]. *)
Theorem is_currently_played_states (songitem : SongListItem.t) :
  (SongListItem.is_currently_played songitem = true ↔
   SongListItem.state songitem = States.loading ∨
   SongListItem.state songitem = States.playing ∨
   SongListItem.state songitem = States.paused) ∧
  (SongListItem.state songitem = States.loading ∨
   SongListItem.state songitem = States.playing ∨
   SongListItem.state songitem = States.paused →
   SongListItem.unappend songitem = (songitem, [])) ∧
  (SongListItem.state songitem = States.idle →
   SongListItem.unappend songitem = (songitem, [sig_unappend_requested])).
Proof.
  split; [apply is_currently_played_true|]. split.
  - intros Hs. apply is_currently_played_true in Hs.
    unfold SongListItem.unappend. by rewrite Hs.
  - intros Hs. apply is_currently_played_false in Hs.
    unfold SongListItem.unappend. by rewrite Hs.
Qed.

(** C6, as the guard of [unappend] has it: on an item that is currently
    played in the item's own sense ([is_currently_played]: its state is
    loading, playing or paused) [unappend] sends no [unappend-requested]
    signal, so no handler runs: the world, and with it the player and the
    tracks of its queue, stay as they were. *)
Theorem unappend_currently_played_noop (w : World) (r : nat)
  (songitem : SongListItem.t) :
  items w !! r = Some songitem →
  SongListItem.is_currently_played songitem = true →
  (sig_unappend_requested ∉ (SongListItem.unappend songitem).2) ∧
  call_item SongListItem.unappend r w = w ∧
  player_get_queue_tracks (player (call_item SongListItem.unappend r w)) =
  player_get_queue_tracks (player w).
Proof.
  intros Hr Hplayed.
  assert (Hw : call_item SongListItem.unappend r w = w).
  { unfold call_item, SongListItem.unappend. rewrite Hr, Hplayed. simpl.
    rewrite (list_insert_id _ _ _ Hr). apply set_items_same. }
  split; [|split].
  - unfold SongListItem.unappend. rewrite Hplayed. simpl. apply not_elem_of_nil.
  - exact Hw.
  - by rewrite Hw.
Qed.

(** ** Activation *)

(** C1: an activation makes exactly one call on the player, chosen in this
    order: play/pause for an item that is loading, playing or paused; else
    goto_track on the queue page; else append_to_queue when the page appends
    or filtering is on; else load_queue with the list's own tracks from the
    item's index. *)
Theorem item_activated_policy (w : World) (r : nat) (songitem : SongListItem.t) :
  items w !! r = Some songitem →
  (SongListItem.state songitem ∈ [States.loading; States.playing; States.paused] →
   player (item_activated r w) = player_play_pause (player w)) ∧
  (SongListItem.state songitem = States.idle →
   current_page_slug w = "queue" →
   player (item_activated r w) =
   player_goto_track (SongListItem.track songitem) (player w)) ∧
  (SongListItem.state songitem = States.idle →
   current_page_slug w ≠ "queue" →
   current_page_append w = true ∨ hotkey_filtering w = true →
   player (item_activated r w) =
   player_append_to_queue (SongListItem.track songitem) (player w)) ∧
  (SongListItem.state songitem = States.idle →
   current_page_slug w ≠ "queue" →
   current_page_append w = false →
   hotkey_filtering w = false →
   player (item_activated r w) =
   player_load_queue (tracks w) (SongListItem.index songitem) (player w)).
Proof.
  intros Hr.
  assert (Hkeep : ∀ w1 : World,
    player (if hotkey_filtering w1 &&
               negb (String.eqb (current_page_slug w1) "search")
            then set_walker (get_filtered_items w1) w1 else w1) = player w1).
  { intros w1. by destruct (_ && _). }
  unfold item_activated. rewrite Hr, Hkeep. repeat split.
  - intros Hs. rewrite !elem_of_cons, elem_of_nil in Hs.
    assert (Hp : SongListItem.is_currently_played songitem = true)
      by (apply is_currently_played_true; tauto).
    by rewrite Hp.
  - intros Hs Hq. apply is_currently_played_false in Hs.
    apply String.eqb_eq in Hq. by rewrite Hs, Hq.
  - intros Hs Hq Hor. apply is_currently_played_false in Hs.
    apply String.eqb_neq in Hq. rewrite Hs, Hq.
    assert (Hb : current_page_append w || hotkey_filtering w = true).
    { destruct Hor as [-> | ->]; [done | apply orb_true_r]. }
    rewrite Hb. unfold item_append_requested. by rewrite Hr.
  - intros Hs Hq Ha Hf. apply is_currently_played_false in Hs.
    apply String.eqb_neq in Hq. by rewrite Hs, Hq, Ha, Hf.
Qed.

(** ** Filtering *)

Lemma get_filtered_items_loop_filter (w : World) (ws matches : list Widget) :
  get_filtered_items_loop w ws matches =
  matches ++ filter (λ x, shown_by_filter w x) ws.
Proof.
  revert matches. induction ws as [|x ws IH]; intros matches; simpl.
  - by rewrite filter_nil, app_nil_r.
  - destruct x as [r|text].
    + destruct (items w !! r) as [songitem|] eqn:Hr.
      * destruct (title_matches (filter_query w) songitem) eqn:Hm.
        -- rewrite IH, filter_cons_True, <- app_assoc; [done|].
           simpl. rewrite Hr. by apply Is_true_true.
        -- rewrite IH, filter_cons_False; [done|].
           simpl. rewrite Hr. by apply Is_true_false.
      * rewrite IH, filter_cons_False; [done|]. simpl. rewrite Hr. intros [].
    + rewrite IH, filter_cons_False; [done|]. simpl. intros [].
Qed.

Lemma get_filtered_items_filter (w : World) :
  get_filtered_items w = filter (λ x, shown_by_filter w x) (tracks_walker w).
Proof. apply get_filtered_items_loop_filter. Qed.

Lemma shown_by_filter_ext (w w' : World) (x : Widget) :
  filter_query w = filter_query w' →
  same_titles (items w) (items w') →
  shown_by_filter w x = shown_by_filter w' x.
Proof.
  intros Hq Hst. destruct x as [r|text]; [|done]. simpl. rewrite <- Hq.
  destruct (items w !! r) as [a|] eqn:Ha.
  - destruct (Forall2_lookup_l _ _ _ _ _ Hst Ha) as (b & -> & Ht & Hrt).
    unfold SongListItem.full_title. by rewrite Ht, Hrt.
  - destruct (items w' !! r) as [b|] eqn:Hb; [|done].
    destruct (Forall2_lookup_r _ _ _ _ _ Hst Hb) as (a & Ha' & _). congruence.
Qed.

Lemma get_filtered_items_ext (w w' : World) :
  tracks_walker w = tracks_walker w' →
  filter_query w = filter_query w' →
  same_titles (items w) (items w') →
  get_filtered_items w = get_filtered_items w'.
Proof.
  intros Htw Hq Hst. rewrite !get_filtered_items_filter, <- Htw.
  apply list_filter_iff. intros x.
  by rewrite (shown_by_filter_ext w w' x Hq Hst).
Qed.

Lemma same_titles_refl (store : list SongListItem.t) : same_titles store store.
Proof. apply Forall2_same_length_lookup. split; [done|]. intros; simplify_eq. done. Qed.

Lemma same_titles_set_index (store store' : list SongListItem.t) (i : Z) (r : nat) :
  same_titles store store' →
  same_titles store (alter (SongListItem.set_index i) r store').
Proof.
  intros Hst. apply Forall2_alter_r; [done|]. intros a b _ _ [? ?]. done.
Qed.

Lemma update_indexes_loop_same_titles (ws : list Widget) (i : nat)
  (store0 store store' : list SongListItem.t) :
  same_titles store0 store →
  update_indexes_loop ws i store = Some store' →
  same_titles store0 store'.
Proof.
  revert i store. induction ws as [|[r|text] ws IH]; intros i store Hst Hrun;
    simpl in Hrun; simplify_eq; [done|].
  eapply IH; [|done]. by apply same_titles_set_index.
Qed.

Lemma update_indexes_loop_song_items (ws : list Widget) (i : nat)
  (store : list SongListItem.t) :
  Forall (λ x, ∃ r, x = SongItem r) ws →
  is_Some (update_indexes_loop ws i store).
Proof.
  intros Hall. revert i store.
  induction Hall as [|x ws [r ->] _ IH]; intros i store; simpl; [done|apply IH].
Qed.

Lemma get_filtered_items_song_items (w : World) :
  Forall (λ x, ∃ r, x = SongItem r) (get_filtered_items w).
Proof.
  rewrite get_filtered_items_filter. apply Forall_forall. intros x Hx.
  apply list_elem_of_filter in Hx as [Hx _]. destruct x; [eauto|done].
Qed.

Lemma show_matches_walker (w : World) :
  ∃ w', show_matches w = Some w' ∧
    tracks_walker w' = tracks_walker w ∧
    filter_query w' = filter_query w ∧
    same_titles (items w) (items w') ∧
    walker w' = get_filtered_items w'.
Proof.
  unfold show_matches.
  set (w1 := set_focus 0 _).
  assert (H1 : tracks_walker w1 = tracks_walker w ∧
               filter_query w1 = filter_query w ∧ items w1 = items w)
    by by destruct w.
  destruct H1 as (Htw & Hq & Hit).
  assert (Hwk : walker w1 = get_filtered_items w1).
  { transitivity (get_filtered_items
                    (set_filter_box (filter_prefix +:+ filter_query w) w));
      [by destruct w|].
    apply get_filtered_items_ext; try (by destruct w).
    rewrite Hit. replace (items (set_filter_box _ w)) with (items w)
      by (by destruct w). apply same_titles_refl. }
  replace (current_page_slug (set_focus 0 _)) with (current_page_slug w1) by done.
  destruct (String.eqb (current_page_slug w1) "library").
  - unfold update_indexes.
    destruct (update_indexes_loop_song_items (walker w1) 0 (items w1))
      as [store' Hrun].
    { rewrite Hwk. apply get_filtered_items_song_items. }
    rewrite Hrun. simpl. exists (set_items store' w1).
    assert (Hst : same_titles (items w1) store').
    { eapply update_indexes_loop_same_titles; [apply same_titles_refl|done]. }
    split; [done|].
    split; [by destruct w1|]. split; [by destruct w1|].
    split; [rewrite <- Hit; by destruct w1|].
    transitivity (walker w1); [by destruct w1|]. rewrite Hwk.
    apply get_filtered_items_ext; [by destruct w1|by destruct w1|].
    by destruct w1.
  - exists w1. rewrite Hit. eauto using same_titles_refl.
Qed.

(** C3: the collection shown under a filter is the snapshot restricted, in
    order, to the song items whose title contains the query, both
    lower-cased; filtering that result again with the same query changes
    nothing; and after [perform_filtering] (other than backspace on an empty
    query, which ends filtering) the walker holds exactly that collection
    for the updated query. *)
Theorem filtered_items_subsequence (w : World) :
  get_filtered_items w = filter (λ x, shown_by_filter w x) (tracks_walker w) ∧
  get_filtered_items w `sublist_of` tracks_walker w ∧
  (∀ x, x ∈ get_filtered_items w ↔
     x ∈ tracks_walker w ∧
     ∃ r songitem, x = SongItem r ∧ items w !! r = Some songitem ∧
       str_in (str_lower (filter_query w))
              (str_lower (SongListItem.full_title songitem)) = true) ∧
  get_filtered_items (set_tracks_walker (get_filtered_items w) w) =
    get_filtered_items w ∧
  (∀ char, ¬ (char = "backspace" ∧ filter_query w = "") →
     ∃ w', perform_filtering char w = Some w' ∧
       tracks_walker w' = tracks_walker w ∧
       filter_query w' =
         (if String.eqb char "backspace" then str_drop_last (filter_query w)
          else filter_query w +:+ char) ∧
       walker w' = get_filtered_items w').
Proof.
  split; [apply get_filtered_items_filter|].
  split; [rewrite get_filtered_items_filter; apply sublist_filter|].
  split.
  { intros x. rewrite get_filtered_items_filter, list_elem_of_filter.
    split.
    - intros [Hm Hx]. split; [done|]. destruct x as [r|text]; [|done].
      simpl in Hm. destruct (items w !! r) as [songitem|] eqn:Hr; [|done].
      exists r, songitem. by apply Is_true_true in Hm.
    - intros [Hx (r & songitem & -> & Hr & Hm)]. split; [|done].
      simpl. rewrite Hr. by apply Is_true_true. }
  split.
  { rewrite (get_filtered_items_filter (set_tracks_walker _ _)).
    replace (tracks_walker (set_tracks_walker (get_filtered_items w) w))
      with (get_filtered_items w) by by destruct w.
    rewrite get_filtered_items_filter at 1. rewrite list_filter_filter.
    rewrite get_filtered_items_filter. apply list_filter_iff. intros x.
    replace (shown_by_filter (set_tracks_walker _ w) x)
      with (shown_by_filter w x) by (by destruct w). tauto. }
  intros char Hnot. unfold perform_filtering.
  destruct (String.eqb char "backspace") eqn:Hc.
  - destruct (String.eqb (filter_query w) "") eqn:Hq.
    { apply String.eqb_eq in Hc, Hq. tauto. }
    destruct (show_matches_walker
                (set_filter_query (str_drop_last (filter_query w)) w))
      as (w' & Hrun & Htw & Hfq & _ & Hwk).
    exists w'. split; [done|]. split; [by rewrite Htw; destruct w|].
    split; [by rewrite Hfq; destruct w|done].
  - destruct (show_matches_walker
                (set_filter_query (filter_query w +:+ char) w))
      as (w' & Hrun & Htw & Hfq & _ & Hwk).
    exists w'. split; [done|]. split; [by rewrite Htw; destruct w|].
    split; [by rewrite Hfq; destruct w|done].
Qed.

(** C4, as the guard of [start_filtering] has it: from a world that is not
    filtering, [start_filtering] and then [end_filtering] bring back the
    walker (the same item references in the same order, the items
    untouched) and leave the filtering flag false. *)
Theorem end_after_start_filtering (w : World) :
  hotkey_filtering w = false →
  walker (end_filtering (start_filtering w)) = walker w ∧
  items (end_filtering (start_filtering w)) = items w ∧
  hotkey_filtering (end_filtering (start_filtering w)) = false.
Proof.
  intros Hf. unfold start_filtering. rewrite Hf. by destruct w.
Qed.

(** C8, as the code has it: [start_filtering] empties [filter_query] when it
    enters filtering mode (it does nothing when already filtering);
    [end_filtering] leaves [filter_query] as it is; after it the text of the
    filter box is empty, and so is the match counter unless the filter box
    was empty already, when [end_filtering] returns at once and the counter
    stays as it was. *)
Theorem filter_query_cleared_on_start (w : World) :
  filter_query (start_filtering w) =
    (if hotkey_filtering w then filter_query w else "") ∧
  filter_query (end_filtering w) = filter_query w ∧
  filter_box (end_filtering w) = "" ∧
  filter_info (end_filtering w) =
    (if String.eqb (filter_box w) "" then filter_info w else "").
Proof.
  unfold start_filtering, end_filtering.
  destruct (hotkey_filtering w); simpl;
    (split; [done|]);
    destruct (String.eqb (filter_box w) "") eqn:Hb; simpl;
    try (by destruct w);
    (split; [done|]); (split; [|done]); by apply String.eqb_eq in Hb.
Qed.

(** ** Populate *)

Lemma tracks_to_songlist_loop_spec (current_track : option Track.t)
  (ts : list Track.t) (index : nat) (store : list SongListItem.t)
  (songitems : list Widget) (current_index : option nat) :
  ∃ news current_index',
    tracks_to_songlist_loop current_track ts index store songitems current_index =
      (store ++ news,
       songitems ++ (SongItem <$> seq (length store) (length ts)),
       current_index') ∧
    Forall2 (λ track songitem, SongListItem.track songitem = track) ts news.
Proof.
  revert index store songitems current_index.
  induction ts as [|track ts IH]; intros index store songitems current_index.
  - exists [], current_index. simpl. by rewrite !app_nil_r.
  - simpl.
    set (is_current := match current_track with
                       | Some current => Track.eqb current track
                       | None => false
                       end).
    set (songitem := if is_current
                     then SongListItem.set_state States.loading (SongListItem.init track)
                     else SongListItem.init track).
    set (ci := if is_current then _ else current_index).
    destruct (IH (S index) (store ++ [songitem])
                 (songitems ++ [SongItem (length store)]) ci)
      as (news & ci' & Hrun & Hall).
    exists (songitem :: news), ci'. split.
    + rewrite Hrun, <- !app_assoc, length_app. simpl.
      by rewrite Nat.add_1_r.
    + constructor; [|done]. unfold songitem. by destruct is_current.
Qed.

Lemma update_indexes_loop_fresh (news pre : list SongListItem.t) (i : nat) :
  update_indexes_loop (SongItem <$> seq (length pre) (length news)) i
    (pre ++ news) =
  Some (pre ++ imap (λ j, SongListItem.set_index (Z.of_nat (i + j))) news).
Proof.
  revert pre i. induction news as [|songitem news IH]; intros pre i; [done|].
  simpl.
  replace (alter (SongListItem.set_index (Z.of_nat i)) (length pre)
             (pre ++ songitem :: news))
    with ((pre ++ [SongListItem.set_index (Z.of_nat i) songitem]) ++ news).
  2:{ rewrite <- (Nat.add_0_r (length pre)) at 1.
      by rewrite alter_app_r, <- app_assoc. }
  replace (S (length pre))
    with (length (pre ++ [SongListItem.set_index (Z.of_nat i) songitem]))
    by (rewrite length_app; simpl; lia).
  rewrite IH, <- app_assoc. simpl. rewrite Nat.add_0_r.
  do 3 f_equal. apply imap_ext. intros j x _. simpl. do 2 f_equal. lia.
Qed.

(** C2: [populate ts] always succeeds; afterwards the walker holds one song
    item per track of [ts], in the order of [ts], each a distinct item whose
    index is its position (from 0). *)
Theorem populate_one_item_per_track (w : World) (ts : list Track.t) :
  ∃ w', populate ts w = Some w' ∧
    tracks w' = ts ∧
    length (walker w') = length ts ∧
    (∀ i track, ts !! i = Some track →
       ∃ r songitem,
         walker w' !! i = Some (SongItem r) ∧
         items w' !! r = Some songitem ∧
         SongListItem.track songitem = track ∧
         SongListItem.index songitem = Z.of_nat i) ∧
    (∀ i j x, walker w' !! i = Some x → walker w' !! j = Some x → i = j).
Proof.
  unfold populate, tracks_to_songlist.
  replace (tracks (set_tracks ts w)) with ts by by destruct w.
  destruct (tracks_to_songlist_loop_spec
              (player_get_current_track (player (set_tracks ts w))) ts 0
              (items (set_tracks ts w)) [] None)
    as (news & ci & Hrun & Hall).
  rewrite Hrun. simpl app.
  replace (items (set_tracks ts w)) with (items w) in * by by destruct w.
  assert (Hlen : length news = length ts)
    by (symmetry; by eapply Forall2_length).
  set (w1 := set_walker _ _).
  set (store' := items w ++
         imap (λ j, SongListItem.set_index (Z.of_nat (0 + j))) news).
  assert (Hupd : update_indexes w1 = Some (set_items store' w1)).
  { unfold update_indexes.
    replace (walker w1)
      with (SongItem <$> seq (length (items w)) (length news))
      by (rewrite Hlen; by destruct w).
    replace (items w1) with (items w ++ news) by by destruct w.
    by rewrite update_indexes_loop_fresh. }
  rewrite Hupd. simpl.
  set (w2 := set_items store' w1).
  assert (Hwk : walker w2 = SongItem <$> seq (length (items w)) (length ts))
    by by destruct w.
  assert (Hit : items w2 = store') by by destruct w.
  assert (Htr : tracks w2 = ts) by by destruct w.
  assert (Hgoal : ∀ w' : World,
    tracks w' = tracks w2 → walker w' = walker w2 → items w' = items w2 →
    tracks w' = ts ∧
    length (walker w') = length ts ∧
    (∀ i track, ts !! i = Some track →
       ∃ r songitem,
         walker w' !! i = Some (SongItem r) ∧
         items w' !! r = Some songitem ∧
         SongListItem.track songitem = track ∧
         SongListItem.index songitem = Z.of_nat i) ∧
    (∀ i j x, walker w' !! i = Some x → walker w' !! j = Some x → i = j)).
  { intros w' -> -> ->. rewrite Hwk, Hit. split; [done|].
    split; [by rewrite length_fmap, length_seq|]. split.
    - intros i track Hi.
      destruct (Forall2_lookup_l _ _ _ _ _ Hall Hi) as (songitem & Hn & Ht).
      exists (length (items w) + i),
        (SongListItem.set_index (Z.of_nat (0 + i)) songitem).
      split.
      { rewrite list_lookup_fmap, lookup_seq_lt; [done|].
        by eapply lookup_lt_Some. }
      split.
      { unfold store'. rewrite lookup_app_r by lia.
        replace (length (items w) + i - length (items w)) with i by lia.
        by rewrite list_lookup_imap, Hn. }
      done.
    - intros i j x Hi Hj. rewrite list_lookup_fmap in Hi, Hj.
      destruct (seq _ _ !! i) as [a|] eqn:Ha; [|done].
      destruct (seq _ _ !! j) as [b|] eqn:Hb; [|done].
      apply lookup_seq in Ha, Hb. simpl in *. simplify_eq. lia. }
  destruct ci as [i|].
  - eexists. split; [done|]. apply Hgoal; by destruct w.
  - case_bool_decide.
    + eexists. split; [done|]. apply Hgoal; by destruct w.
    + eexists. split; [done|]. by apply Hgoal.
Qed.

(** ** Track changed *)

Lemma alter_lookup_Some {A} (f : A → A) (r : nat) (l : list A) (x : A) :
  l !! r = Some x → alter f r l = <[r := f x]> l.
Proof.
  intros Hr. apply list_eq. intros j. destruct (decide (r = j)) as [<-|Hne].
  - rewrite list_lookup_alter_eq, Hr, list_lookup_insert_eq; [done|].
    by eapply lookup_lt_Some.
  - by rewrite list_lookup_alter_ne, list_lookup_insert_ne.
Qed.

Lemma alter_lookup_None {A} (f : A → A) (r : nat) (l : list A) :
  l !! r = None → alter f r l = l.
Proof.
  intros Hr. apply list_eq. intros j. destruct (decide (r = j)) as [<-|Hne].
  - by rewrite list_lookup_alter_eq, Hr.
  - by rewrite list_lookup_alter_ne.
Qed.

(** The store after the loop: every song item of the walker went through
    [track_changed_item], in walker order. *)
Lemma track_changed_loop_store (slug : string) (track : Track.t)
  (ws : list Widget) (i : nat) (store : list SongListItem.t)
  (focus : option nat) :
  (track_changed_loop slug track ws i store focus).1 =
  foldl (λ st x, match x with
                 | SongItem r => alter (track_changed_item slug track) r st
                 | Text _ => st
                 end) store ws.
Proof.
  revert i store focus.
  induction ws as [|[r|text] ws IH]; intros i store focus; simpl; [done| |done].
  destruct (store !! r) as [songitem|] eqn:Hr.
  - rewrite (alter_lookup_Some _ _ _ _ Hr). unfold track_changed_item.
    destruct (track_changed_matches slug track songitem); [apply IH|].
    destruct (negb _); [apply IH|].
    rewrite (list_insert_id _ _ _ Hr). apply IH.
  - rewrite (alter_lookup_None _ _ _ Hr). apply IH.
Qed.

Lemma track_changed_matches_set_state (slug : string) (track : Track.t)
  (s : States.t) (songitem : SongListItem.t) :
  track_changed_matches slug track (SongListItem.set_state s songitem) =
  track_changed_matches slug track songitem.
Proof. done. Qed.

Lemma track_changed_item_idemp (slug : string) (track : Track.t)
  (songitem : SongListItem.t) :
  track_changed_item slug track (track_changed_item slug track songitem) =
  track_changed_item slug track songitem.
Proof.
  unfold track_changed_item.
  destruct (track_changed_matches slug track songitem) eqn:Hm.
  - by rewrite track_changed_matches_set_state, Hm.
  - destruct (negb _) eqn:Hs.
    + by rewrite track_changed_matches_set_state, Hm.
    + by rewrite Hm, Hs.
Qed.

Lemma foldl_alter_lookup_in {A} (f : A → A) (ws : list Widget) (store : list A)
  (r : nat) :
  (∀ x, f (f x) = f x) →
  SongItem r ∈ ws →
  foldl (λ st x, match x with
                 | SongItem r => alter f r st
                 | Text _ => st
                 end) store ws !! r = f <$> store !! r.
Proof.
  intros Hidem. revert store.
  assert (Hany : ∀ (ws : list Widget) (store : list A),
    let res := foldl (λ st x, match x with
                              | SongItem r => alter f r st
                              | Text _ => st
                              end) store ws !! r in
    res = store !! r ∨ res = f <$> store !! r).
  { clear ws. intros ws. induction ws as [|[r0|text] ws IH]; intros store; simpl;
      [by left| |apply IH].
    destruct (IH (alter f r0 store)) as [Heq|Heq]; simpl in Heq; rewrite Heq;
      destruct (decide (r0 = r)) as [->|Hne];
      rewrite ?list_lookup_alter_eq, ?list_lookup_alter_ne by done; auto.
    right. destruct (store !! r); simpl; [by rewrite Hidem|done]. }
  induction ws as [|x ws IH]; intros store; [by intros ?%elem_of_nil|].
  intros [<-|Hin]%elem_of_cons; simpl.
  - destruct (Hany ws (alter f r store)) as [Heq|Heq]; simpl in Heq;
      rewrite Heq, list_lookup_alter_eq; [done|].
    destruct (store !! r); simpl; [by rewrite Hidem|done].
  - destruct x as [r0|text]; [|by apply IH].
    rewrite IH by done. destruct (decide (r0 = r)) as [->|Hne].
    + rewrite list_lookup_alter_eq.
      destruct (store !! r); simpl; [by rewrite Hidem|done].
    + by rewrite list_lookup_alter_ne.
Qed.

Lemma foldl_alter_lookup_notin {A} (f : A → A) (ws : list Widget)
  (store : list A) (r : nat) :
  SongItem r ∉ ws →
  foldl (λ st x, match x with
                 | SongItem r => alter f r st
                 | Text _ => st
                 end) store ws !! r = store !! r.
Proof.
  revert store. induction ws as [|x ws IH]; intros store Hnot; [done|].
  apply not_elem_of_cons in Hnot as [Hne Hnot]. simpl.
  rewrite IH by done. destruct x as [r0|text]; [|done].
  apply list_lookup_alter_ne. congruence.
Qed.

Lemma foldl_alter_same_titles (slug : string) (track : Track.t)
  (ws : list Widget) (store0 store : list SongListItem.t) :
  same_titles store0 store →
  same_titles store0
    (foldl (λ st x, match x with
                    | SongItem r => alter (track_changed_item slug track) r st
                    | Text _ => st
                    end) store ws).
Proof.
  revert store. induction ws as [|[r|text] ws IH]; intros store Hst; simpl;
    [done| |by apply IH].
  apply IH. apply Forall2_alter_r; [done|].
  intros a b _ _ [Ht Hr]. unfold track_changed_item.
  destruct (track_changed_matches slug track b); [done|].
  by destruct (negb (bool_decide (SongListItem.state b = States.idle))).
Qed.

Lemma same_titles_set_state (store0 store : list SongListItem.t) (r : nat)
  (songitem : SongListItem.t) (s : States.t) :
  same_titles store0 store →
  store !! r = Some songitem →
  same_titles store0 (<[r := SongListItem.set_state s songitem]> store).
Proof.
  intros Hst Hr. rewrite <- (alter_lookup_Some (SongListItem.set_state s)) by done.
  apply Forall2_alter_r; [done|]. by intros a b _ _ [? ?].
Qed.

Lemma same_titles_matches (slug : string) (track : Track.t)
  (store0 store : list SongListItem.t) (r : nat) (a0 a : SongListItem.t) :
  same_titles store0 store →
  store0 !! r = Some a0 → store !! r = Some a →
  track_changed_matches slug track a0 = track_changed_matches slug track a.
Proof.
  intros Hst H0 Hr.
  destruct (Forall2_lookup_l _ _ _ _ _ Hst H0) as (b & Hb & Ht & _).
  simplify_eq. unfold track_changed_matches. by rewrite Ht.
Qed.

(** One round of the loop of [track_changed]: the focus moves to the
    current position exactly when the widget there matches the track. *)
Lemma track_changed_loop_step (slug : string) (track : Track.t)
  (store0 : list SongListItem.t) (x : Widget) (ws : list Widget) (i : nat)
  (store : list SongListItem.t) (focus : option nat) :
  same_titles store0 store →
  ∃ store1 focus1,
    track_changed_loop slug track (x :: ws) i store focus =
    track_changed_loop slug track ws (S i) store1 focus1 ∧
    same_titles store0 store1 ∧
    ((focus1 = Some i ∧ matches_at slug track store0 (x :: ws) 0) ∨
     (focus1 = focus ∧ ¬ matches_at slug track store0 (x :: ws) 0)).
Proof.
  intros Hst. destruct x as [r|text]; simpl.
  - destruct (store !! r) as [a|] eqn:Hr.
    + destruct (Forall2_lookup_r _ _ _ _ _ Hst Hr) as (a0 & H0 & _).
      pose proof (same_titles_matches slug track _ _ _ _ _ Hst H0 Hr) as Hm.
      destruct (track_changed_matches slug track a) eqn:Ha.
      * eexists _, _. split; [done|].
        split; [by apply same_titles_set_state|]. left. split; [done|].
        by exists r, a0.
      * assert (Hno : ¬ matches_at slug track store0 (SongItem r :: ws) 0).
        { intros (r' & a' & Hx & Hr' & Hm'). simpl in Hx. simplify_eq.
          congruence. }
        destruct (negb _); eexists _, _; (split; [done|]);
          (split; [by try apply same_titles_set_state|]); by right.
    + eexists _, _. split; [done|]. split; [done|]. right. split; [done|].
      intros (r' & a' & Hx & Hr' & _). simpl in Hx. simplify_eq.
      destruct (Forall2_lookup_l _ _ _ _ _ Hst Hr') as (b & Hb & _). congruence.
  - eexists _, _. split; [done|]. split; [done|]. right. split; [done|].
    intros (r' & a' & Hx & _). done.
Qed.

Lemma matches_at_cons (slug : string) (track : Track.t)
  (store : list SongListItem.t) (x : Widget) (ws : list Widget) (k : nat) :
  matches_at slug track store (x :: ws) (S k) ↔
  matches_at slug track store ws k.
Proof. done. Qed.

Lemma track_changed_loop_focus_cases (slug : string) (track : Track.t)
  (store0 : list SongListItem.t) (ws : list Widget) (i : nat)
  (store : list SongListItem.t) (focus : option nat) :
  same_titles store0 store →
  (track_changed_loop slug track ws i store focus).2 = focus ∨
  ∃ k, (track_changed_loop slug track ws i store focus).2 = Some (i + k) ∧
       matches_at slug track store0 ws k.
Proof.
  revert i store focus. induction ws as [|x ws IH]; intros i store focus Hst;
    [by left|].
  destruct (track_changed_loop_step slug track store0 x ws i store focus Hst)
    as (store1 & focus1 & -> & Hst1 & Hfocus).
  destruct (IH (S i) store1 focus1 Hst1) as [->|(k & -> & Hk)].
  - destruct Hfocus as [[-> Hm]|[-> _]]; [|by left].
    right. exists 0. by rewrite Nat.add_0_r.
  - right. exists (S k). split; [f_equal; lia|done].
Qed.

Lemma track_changed_loop_focus_last (slug : string) (track : Track.t)
  (store0 : list SongListItem.t) (ws : list Widget) (i : nat)
  (store : list SongListItem.t) (focus : option nat) (j : nat) :
  same_titles store0 store →
  matches_at slug track store0 ws j →
  ∃ k, j ≤ k ∧
       (track_changed_loop slug track ws i store focus).2 = Some (i + k) ∧
       matches_at slug track store0 ws k.
Proof.
  revert i store focus j.
  induction ws as [|x ws IH]; intros i store focus j Hst Hj.
  { by destruct Hj as (? & ? & ? & _). }
  destruct (track_changed_loop_step slug track store0 x ws i store focus Hst)
    as (store1 & focus1 & -> & Hst1 & Hfocus).
  destruct j as [|j].
  - destruct Hfocus as [[-> Hm]|[_ Hno]]; [|done].
    destruct (track_changed_loop_focus_cases slug track store0 ws (S i)
                store1 (Some i) Hst1) as [->|(k & -> & Hk)].
    + exists 0. by rewrite Nat.add_0_r.
    + exists (S k). split; [lia|]. split; [f_equal; lia|done].
  - destruct (IH (S i) store1 focus1 j Hst1 Hj) as (k & Hle & -> & Hk).
    exists (S k). split; [lia|]. split; [f_equal; lia|done].
Qed.

Lemma N_eqb_bool_decide (a b : N) : N.eqb a b = bool_decide (a = b).
Proof.
  destruct (N.eqb_spec a b).
  - by rewrite bool_decide_eq_true_2.
  - by rewrite bool_decide_eq_false_2.
Qed.

(** C5: [track_changed T] keeps the walker; every song item of the walker
    that matches [T] ends loading and every other one ends idle (items
    outside the walker are untouched); when some position of the walker
    matches, the focus ends on a matching position, the last one; and an
    item matches by identity of its track on the queue page, by the id of
    its track on every other page. *)
Theorem track_changed_marks_track (w : World) (T : Track.t) :
  walker (track_changed T w) = walker w ∧
  (∀ r songitem,
     SongItem r ∈ walker w → items w !! r = Some songitem →
     ∃ songitem',
       items (track_changed T w) !! r = Some songitem' ∧
       SongListItem.track songitem' = SongListItem.track songitem ∧
       SongListItem.state songitem' =
         (if track_changed_matches (current_page_slug w) T songitem
          then States.loading else States.idle)) ∧
  (∀ r, SongItem r ∉ walker w →
     items (track_changed T w) !! r = items w !! r) ∧
  (∀ j, matches_at (current_page_slug w) T (items w) (walker w) j →
     ∃ k, j ≤ k ∧ walker_focus (track_changed T w) = Some k ∧
          matches_at (current_page_slug w) T (items w) (walker w) k) ∧
  (∀ songitem, current_page_slug w = "queue" →
     track_changed_matches (current_page_slug w) T songitem =
     bool_decide (SongListItem.track songitem = T)) ∧
  (∀ songitem, current_page_slug w ≠ "queue" →
     track_changed_matches (current_page_slug w) T songitem =
     bool_decide (Track.id (track_attrs (SongListItem.track songitem)) =
                  Track.id (track_attrs T))).
Proof.
  assert (Hitems : items (track_changed T w) =
    (track_changed_loop (current_page_slug w) T (walker w) 0 (items w)
       (walker_focus w)).1).
  { unfold track_changed. destruct (track_changed_loop _ _ _ _ _ _).
    by destruct w. }
  assert (Hfocus : walker_focus (track_changed T w) =
    (track_changed_loop (current_page_slug w) T (walker w) 0 (items w)
       (walker_focus w)).2).
  { unfold track_changed. destruct (track_changed_loop _ _ _ _ _ _).
    by destruct w. }
  split.
  { unfold track_changed. destruct (track_changed_loop _ _ _ _ _ _).
    by destruct w. }
  split.
  { intros r songitem Hin Hr. rewrite Hitems, track_changed_loop_store.
    rewrite foldl_alter_lookup_in, Hr;
      [|apply track_changed_item_idemp|done].
    simpl. eexists. split; [done|]. unfold track_changed_item.
    destruct (track_changed_matches _ T songitem); [done|].
    destruct (SongListItem.state songitem) eqn:Hs; simpl; by rewrite ?Hs. }
  split.
  { intros r Hnot. rewrite Hitems, track_changed_loop_store.
    by apply foldl_alter_lookup_notin. }
  split.
  { intros j Hj. rewrite Hfocus.
    destruct (track_changed_loop_focus_last (current_page_slug w) T (items w)
                (walker w) 0 (items w) (walker_focus w) j
                (same_titles_refl _) Hj) as (k & Hle & Hk & Hm).
    eauto. }
  split.
  - intros songitem Hq. unfold track_changed_matches, Track.eqb.
    rewrite Hq. simpl. rewrite orb_false_r. apply N_eqb_bool_decide.
  - intros songitem Hq. apply String.eqb_neq in Hq.
    unfold track_changed_matches, Track.eqb, track_id_is. rewrite Hq. simpl.
    rewrite !N_eqb_bool_decide.
    destruct (decide (SongListItem.track songitem = T)) as [->|Hne].
    + by rewrite !bool_decide_eq_true_2.
    + by rewrite (bool_decide_eq_false_2 _ Hne).
Qed.

End SongListProperties.

(** ** Library callbacks *)

(** C7: each completion of add-to-library or remove-from-library adds
    exactly one notification: the error text after the operation's prefix
    when the error is truthy, the fallback text after the prefix when there
    is no error but the result is falsy, and the success message
    otherwise. *)
Theorem library_callbacks_notify_once (result error : PyVal)
  (notification_area : list string) :
  (∃ msg,
     SongListBoxPopup.on_add_to_my_library result error notification_area =
       notification_area ++ [msg] ∧
     (truthy error = true →
      msg = "Error while adding track to my library: " +:+ py_str error) ∧
     (truthy error = false → truthy result = false →
      msg = "Error while adding track to my library: reason is unknown :(") ∧
     (truthy error = false → truthy result = true →
      msg = "Track added to library!")) ∧
  (∃ msg,
     SongListBoxPopup.on_remove_from_my_library result error notification_area =
       notification_area ++ [msg] ∧
     (truthy error = true →
      msg = "Error while removing track from my library: " +:+ py_str error) ∧
     (truthy error = false → truthy result = false →
      msg = "Error while removing track from my library: reason is unknown :(") ∧
     (truthy error = false → truthy result = true →
      msg = "Track removed from library!")).
Proof.
  unfold SongListBoxPopup.on_add_to_my_library,
    SongListBoxPopup.on_remove_from_my_library, SongListBoxPopup.notify.
  destruct (truthy error) eqn:He, (truthy result) eqn:Hr; simpl;
    split; eexists; (split; [reflexivity|]); repeat split; intros; congruence.
Qed.

(** ** Album list *)

Section AlbumProperties.
Context {Album : Type} (album_lt : Album → Album → bool).
Import AlbumListBox.

Lemma insert_keyed_perm {A} (x : Album * A) (l : list (Album * A)) :
  insert_keyed album_lt x l ≡ₚ x :: l.
Proof.
  induction l as [|y l IH]; simpl; [done|].
  destruct (album_lt x.1 y.1); [done|].
  rewrite IH. apply Permutation_swap.
Qed.

Lemma foldl_insert_keyed_perm {A} (l acc : list (Album * A)) :
  foldl (λ acc x, insert_keyed album_lt x acc) acc l ≡ₚ acc ++ l.
Proof.
  revert acc. induction l as [|x l IH]; intros acc; simpl.
  - by rewrite app_nil_r.
  - rewrite IH, insert_keyed_perm. simpl. apply Permutation_middle.
Qed.

Section Ordered.
(** [<] on albums is a strict weak order. *)
Hypothesis lt_asym : ∀ a b, album_lt a b = true → album_lt b a = false.
Hypothesis lt_negtrans : ∀ a b c,
  album_lt b a = false → album_lt c b = false → album_lt c a = false.

Lemma insert_keyed_sorted {A} (x : Album * A) (l : list (Album * A)) :
  StronglySorted (λ a b, album_lt b.1 a.1 = false) l →
  StronglySorted (λ a b, album_lt b.1 a.1 = false) (insert_keyed album_lt x l).
Proof.
  induction 1 as [|y l Hsorted IH Hall]; simpl.
  - repeat constructor.
  - destruct (album_lt x.1 y.1) eqn:Hxy.
    + constructor; [by constructor|]. constructor; [by apply lt_asym|].
      eapply Forall_impl; [exact Hall|]. intros z Hz. simpl in *.
      eapply lt_negtrans; [|exact Hz]. by apply lt_asym.
    + constructor; [done|]. rewrite insert_keyed_perm. by constructor.
Qed.

Lemma foldl_insert_keyed_sorted {A} (l acc : list (Album * A)) :
  StronglySorted (λ a b, album_lt b.1 a.1 = false) acc →
  StronglySorted (λ a b, album_lt b.1 a.1 = false)
    (foldl (λ acc x, insert_keyed album_lt x acc) acc l).
Proof.
  revert acc. induction l as [|x l IH]; intros acc Hacc; simpl; [done|].
  by apply IH, insert_keyed_sorted.
Qed.

End Ordered.

Lemma getitem_elem_of (albums : list (string * Album)) (key : string)
  (album : Album) :
  NoDup albums.*1 → (key, album) ∈ albums → getitem albums key = Some album.
Proof.
  induction albums as [|[k a] albums IH]; intros Hnd Hin; [by apply elem_of_nil in Hin|].
  simpl in *. apply NoDup_cons in Hnd as [Hk Hnd].
  apply elem_of_cons in Hin as [Heq|Hin].
  - simplify_eq. by rewrite String.eqb_refl.
  - destruct (String.eqb_spec k key) as [->|Hne]; [|by apply IH].
    exfalso. apply Hk. apply list_elem_of_fmap. by exists (key, album).
Qed.

(** C9: [populate] of a dict of albums succeeds and yields one list item per
    album, each carrying the box's icon, in ascending order of the albums
    themselves (the sort key of a dict key is its album). *)
Theorem album_populate_sorted (albums : list (string * Album)) (icon : string) :
  (∀ a b, album_lt a b = true → album_lt b a = false) →
  (∀ a b c, album_lt b a = false → album_lt c b = false → album_lt c a = false) →
  NoDup albums.*1 →
  ∃ listitems,
    populate album_lt albums icon = Some listitems ∧
    length listitems = length albums ∧
    item_data <$> listitems ≡ₚ albums.*2 ∧
    Forall (λ listitem, item_icon listitem = icon) listitems ∧
    StronglySorted (λ a b, album_lt b a = false) (item_data <$> listitems).
Proof.
  intros Hasym Hneg Hnd.
  set (keyed := (λ p : string * Album, (p.2, p.1)) <$> albums).
  set (sorted := foldl (λ acc x, insert_keyed album_lt x acc) [] keyed).
  assert (Hkeyed : mapM (λ x, k ← getitem albums x; Some (k, x)) albums.*1 =
                   Some keyed).
  { apply mapM_Some_2. unfold keyed. rewrite Forall2_fmap_l, Forall2_fmap_r.
    apply Forall_Forall2_diag, Forall_forall. intros [k a] Hin. simpl.
    by rewrite (getitem_elem_of albums k a Hnd Hin). }
  assert (Hperm : sorted ≡ₚ keyed).
  { unfold sorted. by rewrite foldl_insert_keyed_perm. }
  assert (Hsorted : StronglySorted (λ a b, album_lt b.1 a.1 = false) sorted).
  { apply foldl_insert_keyed_sorted; [done|done|constructor]. }
  exists ((λ p : Album * string, mk_item p.1 icon) <$> sorted).
  assert (Hitems : mapM (λ key, album ← getitem albums key;
                                Some (mk_item album icon)) sorted.*2 =
                   Some ((λ p : Album * string, mk_item p.1 icon) <$> sorted)).
  { apply mapM_Some_2. rewrite Forall2_fmap_l, Forall2_fmap_r.
    apply Forall_Forall2_diag, Forall_forall. intros [a k] Hin. simpl.
    rewrite (getitem_elem_of albums k a Hnd); [done|].
    rewrite Hperm in Hin. unfold keyed in Hin.
    apply list_elem_of_fmap in Hin as ([k' a'] & Heq & Hin). by simplify_eq. }
  split; [|split; [|split; [|split]]].
  - unfold populate, py_sorted. rewrite Hkeyed. simpl. exact Hitems.
  - rewrite length_fmap, Hperm. unfold keyed. by rewrite length_fmap.
  - rewrite <- list_fmap_compose.
    transitivity ((λ p : Album * string, p.1) <$> keyed).
    + by rewrite Hperm.
    + unfold keyed. by rewrite <- list_fmap_compose.
  - apply Forall_fmap, Forall_forall. by intros.
  - rewrite <- list_fmap_compose.
    change (item_data ∘ _) with (λ p : Album * string, p.1).
    clear -Hsorted. induction Hsorted as [|y l Hs IH Hall]; simpl; constructor;
      [done|]. by apply Forall_fmap.
Qed.

End AlbumProperties.

(** * The properties on the sample world *)

Example sample_filtered_c_reached :
  @SongListBox.perform_filtering sample_env "c"
    (@SongListBox.start_filtering sample_env (sample_populated "albums" (Some 2%N)))
  = Some sample_filtered_c ∧
  walker sample_filtered_c = [SongItem 2] ∧
  tracks_walker sample_filtered_c = [SongItem 0; SongItem 1; SongItem 2] ∧
  hotkey_filtering sample_filtered_c = true.
Proof. repeat apply conj; vm_compute; reflexivity. Qed.

Example sample_appended_reached :
  @SongListBox.append_track sample_env 4%N
    (@SongListBox.start_filtering sample_env (sample_populated "queue" None))
  = Some sample_appended ∧
  walker sample_appended = [SongItem 0; SongItem 1; SongItem 2; SongItem 3] ∧
  filter_query sample_appended = "".
Proof. repeat apply conj; vm_compute; reflexivity. Qed.

(** C1 on the albums page: activating the idle first item of [A; B; C]
    loads the whole list into the queue from index 0. *)
Lemma item_activated_policy_witness :
  player (@SongListBox.item_activated sample_env 0
            (sample_populated "albums" (Some 2%N))) =
  mk_player (Some 1%N) [1%N; 2%N; 3%N] false.
Proof.
  assert (Hr : items (sample_populated "albums" (Some 2%N)) !! 0 =
               Some (SongListItem.mk 1%N "-" "" 0 States.idle false))
    by (vm_compute; reflexivity).
  destruct (@item_activated_policy sample_env _ 0 _ Hr) as (_ & _ & _ & Hload).
  rewrite Hload; vm_compute; (reflexivity || discriminate).
Defined.

(** C6, amended, on the loading item of B while B plays from the queue
    [A; B; C]: nothing is sent and the queue keeps its three tracks. *)
Lemma unappend_currently_played_noop_witness :
  (sig_unappend_requested ∉
     (SongListItem.unappend
        (SongListItem.mk 2%N "-" "" 1 States.loading false)).2) ∧
  @SongListBox.call_item sample_env SongListItem.unappend 1 sample_playing_b =
    sample_playing_b ∧
  player_get_queue_tracks
    (player (@SongListBox.call_item sample_env SongListItem.unappend 1
               sample_playing_b)) =
    [1%N; 2%N; 3%N].
Proof.
  destruct (@unappend_currently_played_noop sample_env sample_playing_b 1
              (SongListItem.mk 2%N "-" "" 1 States.loading false))
    as (Hsig & Hworld & Hqueue); [vm_compute; reflexivity..|].
  split; [exact Hsig|]. split; [exact Hworld|].
  rewrite Hqueue. vm_compute. reflexivity.
Defined.

(** C6 as stated fails for an item whose track is the player's current one
    but whose state was never told so.  With the filter showing only C the
    player moves on to A; [track_changed] goes through the walker, which
    does not hold the item of A; after [end_filtering] that item is shown,
    idle, while A plays.  Its [unappend] sends [unappend-requested] and the
    queue loses A. *)
Lemma unappend_idle_item_of_current_track :
  player_get_current_track (player sample_stale_a) = Some 1%N ∧
  walker sample_stale_a = [SongItem 0; SongItem 1; SongItem 2] ∧
  items sample_stale_a !! 0 =
    Some (SongListItem.mk 1%N "-" "" 0 States.idle false) ∧
  (SongListItem.unappend
     (SongListItem.mk 1%N "-" "" 0 States.idle false)).2 =
    [sig_unappend_requested] ∧
  player_get_queue_tracks (player sample_stale_a) = [1%N; 2%N; 3%N] ∧
  player_get_queue_tracks
    (player (@SongListBox.call_item sample_env SongListItem.unappend 0
               sample_stale_a)) =
    [2%N; 3%N].
Proof. repeat apply conj; vm_compute; reflexivity. Qed.

(** C4, amended, on a list that is not filtering. *)
Lemma end_after_start_filtering_witness :
  walker (@SongListBox.end_filtering sample_env
            (@SongListBox.start_filtering sample_env
               (sample_populated "albums" (Some 2%N)))) =
  [SongItem 0; SongItem 1; SongItem 2].
Proof.
  assert (Hf : hotkey_filtering (sample_populated "albums" (Some 2%N)) = false)
    by (vm_compute; reflexivity).
  rewrite (proj1 (@end_after_start_filtering sample_env _ Hf)).
  vm_compute. reflexivity.
Defined.

(** C4 as stated fails when filtering is already on: with [c] typed only
    track C is shown; [start_filtering] is then a no-op and [end_filtering]
    brings back all three items instead of the one that was visible. *)
Lemma end_after_start_filtering_while_filtering :
  walker sample_filtered_c = [SongItem 2] ∧
  walker (@SongListBox.end_filtering sample_env
            (@SongListBox.start_filtering sample_env sample_filtered_c)) =
  [SongItem 0; SongItem 1; SongItem 2] ∧
  walker (@SongListBox.end_filtering sample_env
            (@SongListBox.start_filtering sample_env sample_filtered_c)) ≠
  walker sample_filtered_c.
Proof. repeat apply conj; vm_compute; (reflexivity || discriminate). Qed.

(** The same with no character typed at all: a track appended while the
    filter box is open is dropped from view by [start_filtering] and
    [end_filtering]. *)
Example end_filtering_drops_appended_track :
  hotkey_filtering sample_appended = true ∧
  walker (@SongListBox.end_filtering sample_env
            (@SongListBox.start_filtering sample_env sample_appended)) =
  [SongItem 0; SongItem 1; SongItem 2] ∧
  walker (@SongListBox.end_filtering sample_env
            (@SongListBox.start_filtering sample_env sample_appended)) ≠
  walker sample_appended.
Proof. repeat apply conj; vm_compute; (reflexivity || discriminate). Qed.

(** C8 as stated fails for [end_filtering]: after [c] is typed, ending the
    filter leaves [filter_query] at [c]. *)
Lemma end_filtering_keeps_filter_query :
  filter_query sample_filtered_c = "c" ∧
  filter_query (@SongListBox.end_filtering sample_env sample_filtered_c) = "c" ∧
  filter_query (@SongListBox.end_filtering sample_env sample_filtered_c) ≠ "".
Proof. repeat apply conj; vm_compute; (reflexivity || discriminate). Qed.

(** C9 on four albums, two of them equal in the order. *)
Lemma album_populate_sorted_witness :
  ∃ listitems,
    AlbumListBox.populate Z.ltb sample_albums "*" = Some listitems ∧
    length listitems = length sample_albums ∧
    AlbumListBox.item_data <$> listitems ≡ₚ sample_albums.*2 ∧
    Forall (λ listitem, AlbumListBox.item_icon listitem = "*") listitems ∧
    StronglySorted (λ a b, Z.ltb b a = false)
      (AlbumListBox.item_data <$> listitems).
Proof.
  apply (album_populate_sorted Z.ltb sample_albums "*").
  - intros a b. rewrite Z.ltb_lt, Z.ltb_ge. lia.
  - intros a b c. rewrite !Z.ltb_ge. lia.
  - apply (bool_decide_unpack (NoDup sample_albums.*1)). vm_compute. exact I.
Defined.

(** On the library page [perform_filtering] re-indexes the items it shows;
    the snapshot holds the same objects, so the hidden list sees the new
    index of C as well. *)
Example perform_filtering_reindexes_shared_items :
  (w ← @SongListBox.perform_filtering sample_env "c"
         (@SongListBox.start_filtering sample_env
            (sample_populated "library" None));
   Some (walker w, SongListItem.index <$> items w)) =
  Some ([SongItem 2], [0%Z; 1%Z; 0%Z]).
Proof. vm_compute. reflexivity. Qed.

Example album_populate_sample :
  AlbumListBox.item_data <$>
    default [] (AlbumListBox.populate Z.ltb sample_albums "*") =
  [5%Z; 10%Z; 20%Z; 20%Z].
Proof. vm_compute. reflexivity. Qed.

Example track_changed_sample :
  SongListItem.state <$>
    items (@SongListBox.track_changed sample_env 3%N
             (sample_populated "albums" (Some 2%N))) =
  [States.idle; States.idle; States.loading] ∧
  walker_focus (@SongListBox.track_changed sample_env 3%N
                  (sample_populated "albums" (Some 2%N))) = Some 2.
Proof. apply conj; vm_compute; reflexivity. Qed.

(** * Further properties of the song list *)

Section FilteringMore.
Context `{Collaborators}.

Lemma str_drop_last_app_char (q : string) (c : ascii) :
  str_drop_last (q +:+ String c EmptyString) = q.
Proof.
  induction q as [|a q IH]; [done|]. simpl. rewrite IH.
  by destruct q.
Qed.

Lemma str_in_empty (s : string) : str_in "" s = true.
Proof. by destruct s. Qed.

(** What [show_matches] returns: the world with the filter box, the match
    counter, the walker and the focus set, and a store that differs from
    the old one in indexes only. *)
Lemma show_matches_result (w : World) :
  ∃ store',
    same_titles (items w) store' ∧
    (current_page_slug w ≠ "library" → store' = items w) ∧
    SongListBox.show_matches w =
    Some (set_items store'
            (SongListBox.set_focus 0
               (set_walker (SongListBox.get_filtered_items w)
                  (set_filter_info
                     (str_of_nat (length (SongListBox.get_filtered_items w))
                      +:+ " matches")
                     (set_filter_box
                        (SongListBox.filter_prefix +:+ filter_query w) w))))).
Proof.
  unfold SongListBox.show_matches.
  assert (Hsame : SongListBox.get_filtered_items
            (set_filter_box (SongListBox.filter_prefix +:+ filter_query w) w) =
          SongListBox.get_filtered_items w).
  { apply get_filtered_items_ext; try (by destruct w).
    replace (items (set_filter_box _ w)) with (items w) by (by destruct w).
    apply same_titles_refl. }
  rewrite Hsame.
  set (w1 := SongListBox.set_focus 0 _).
  replace (current_page_slug w1) with (current_page_slug w) by (by destruct w).
  destruct (String.eqb_spec (current_page_slug w) "library") as [Hlib|Hlib].
  - unfold SongListBox.update_indexes.
    destruct (update_indexes_loop_song_items (walker w1) 0 (items w1))
      as [store' Hrun].
    { replace (walker w1) with (SongListBox.get_filtered_items w)
        by (by destruct w).
      apply get_filtered_items_song_items. }
    rewrite Hrun. simpl. exists store'. split; [|done].
    replace (items w) with (items w1) by (by destruct w).
    eapply update_indexes_loop_same_titles; [apply same_titles_refl|done].
  - exists (items w). split; [apply same_titles_refl|]. split; [done|].
    f_equal.
Qed.

(** X1: [start_filtering] and [end_filtering] are idempotent: a second call
    in a row changes nothing. *)
Theorem start_end_filtering_idempotent (w : World) :
  SongListBox.start_filtering (SongListBox.start_filtering w) =
    SongListBox.start_filtering w ∧
  SongListBox.end_filtering (SongListBox.end_filtering w) =
    SongListBox.end_filtering w.
Proof.
  split.
  - unfold SongListBox.start_filtering.
    destruct (hotkey_filtering w) eqn:Hf; simpl; [by rewrite Hf|done].
  - unfold SongListBox.end_filtering.
    destruct (String.eqb (filter_box w) "") eqn:Hb; simpl; [by rewrite Hb|done].
Qed.

(** X2: after any key handled by [perform_filtering] (other than backspace
    on an empty query), the call succeeds and [end_filtering] brings the
    snapshot back into the walker, clears the filter box and leaves
    filtering mode; the items keep whatever [perform_filtering] made of
    them. *)
Theorem end_filtering_after_typing (char : string) (w : World) :
  ¬ (char = "backspace" ∧ filter_query w = "") →
  ∃ w', SongListBox.perform_filtering char w = Some w' ∧
    walker (SongListBox.end_filtering w') = tracks_walker w ∧
    hotkey_filtering (SongListBox.end_filtering w') = false ∧
    filter_box (SongListBox.end_filtering w') = "" ∧
    items (SongListBox.end_filtering w') = items w'.
Proof.
  intros Hnot.
  assert (Hshow : ∀ w0 : World, tracks_walker w0 = tracks_walker w →
    ∃ w', SongListBox.show_matches w0 = Some w' ∧
      walker (SongListBox.end_filtering w') = tracks_walker w ∧
      hotkey_filtering (SongListBox.end_filtering w') = false ∧
      filter_box (SongListBox.end_filtering w') = "" ∧
      items (SongListBox.end_filtering w') = items w').
  { intros w0 Htw. destruct (show_matches_result w0) as (store' & _ & _ & ->).
    eexists. split; [done|]. rewrite <- Htw. by destruct w0. }
  unfold SongListBox.perform_filtering.
  destruct (String.eqb_spec char "backspace") as [Hc|Hc].
  - destruct (String.eqb_spec (filter_query w) "") as [Hq|Hq]; [tauto|].
    apply Hshow. by destruct w.
  - apply Hshow. by destruct w.
Qed.

Lemma same_but_index_refl (store : list SongListItem.t) :
  same_but_index store store.
Proof.
  apply Forall_Forall2_diag, Forall_forall. intros a _. by destruct a.
Qed.

Lemma same_but_index_set_index (store store' : list SongListItem.t) (i : Z)
  (r : nat) :
  same_but_index store store' →
  same_but_index store (alter (SongListItem.set_index i) r store').
Proof.
  intros Hst. apply Forall2_alter_r; [done|].
  intros a b _ _ <-. by destruct a.
Qed.

Lemma same_but_index_trans (store1 store2 store3 : list SongListItem.t) :
  same_but_index store1 store2 → same_but_index store2 store3 →
  same_but_index store1 store3.
Proof.
  intros H12 H23. eapply Forall2_trans; [|exact H12|exact H23].
  intros a b d <- <-. by destruct a.
Qed.

Lemma same_but_index_same_titles (store store' : list SongListItem.t) :
  same_but_index store store' → same_titles store store'.
Proof.
  intros Hst. eapply Forall2_impl; [exact Hst|].
  intros a b <-. by destruct a.
Qed.

Lemma update_indexes_loop_same_but_index (ws : list Widget) (i : nat)
  (store0 store store' : list SongListItem.t) :
  same_but_index store0 store →
  SongListBox.update_indexes_loop ws i store = Some store' →
  same_but_index store0 store'.
Proof.
  revert i store. induction ws as [|[r|text] ws IH]; intros i store Hst Hrun;
    simpl in Hrun; simplify_eq; [done|].
  eapply IH; [|done]. by apply same_but_index_set_index.
Qed.

(** The store [show_matches] leaves differs from the old one in indexes
    only, and not at all off the library page. *)
Lemma show_matches_items (w w' : World) :
  SongListBox.show_matches w = Some w' →
  same_but_index (items w) (items w') ∧
  (current_page_slug w ≠ "library" → items w' = items w).
Proof.
  unfold SongListBox.show_matches.
  set (w1 := SongListBox.set_focus 0 _).
  replace (current_page_slug w1) with (current_page_slug w) by (by destruct w).
  assert (Hit : items w1 = items w) by (by destruct w).
  destruct (String.eqb_spec (current_page_slug w) "library") as [Hlib|Hlib].
  - unfold SongListBox.update_indexes. intros Hrun.
    destruct (SongListBox.update_indexes_loop _ _ _) as [store'|] eqn:Hloop;
      simpl in Hrun; simplify_eq.
    split; [|done].
    replace (items (set_items store' w1)) with store' by (by destruct w).
    eapply update_indexes_loop_same_but_index; [|exact Hloop].
    rewrite Hit. apply same_but_index_refl.
  - intros Hrun. simplify_eq. rewrite Hit.
    split; [apply same_but_index_refl|done].
Qed.

(** X3: typing one character (of one byte) and then backspace gives back
    the query there was, with the walker showing what that query shows of
    the same snapshot.  Every item is as it was but for its index (track,
    icons, state and focus flag are kept), and off the library page the
    items are not changed at all. *)
Theorem type_then_backspace (c : ascii) (w : World) :
  ∃ w1 w2,
    SongListBox.perform_filtering (String c EmptyString) w = Some w1 ∧
    SongListBox.perform_filtering "backspace" w1 = Some w2 ∧
    filter_query w2 = filter_query w ∧
    tracks_walker w2 = tracks_walker w ∧
    same_but_index (items w) (items w2) ∧
    (current_page_slug w ≠ "library" → items w2 = items w) ∧
    walker w2 = filter (λ x, shown_by_filter w x) (tracks_walker w).
Proof.
  assert (Hc : String.eqb (String c EmptyString) "backspace" = false)
    by (simpl; apply andb_false_r).
  unfold SongListBox.perform_filtering at 1. rewrite Hc.
  set (w0 := set_filter_query (filter_query w +:+ String c EmptyString) w).
  destruct (show_matches_result w0) as (store1 & _ & _ & Hrun1).
  destruct (show_matches_items w0 _ Hrun1) as [Hix1 Hoff1].
  rewrite Hrun1. set (w1 := set_items store1 _) in *. exists w1.
  assert (Hq1 : filter_query w1 = filter_query w +:+ String c EmptyString)
    by (by destruct w).
  assert (Hne : String.eqb (filter_query w1) "" = false).
  { rewrite Hq1. by destruct (filter_query w). }
  set (w1' := set_filter_query (str_drop_last (filter_query w1)) w1).
  destruct (show_matches_result w1') as (store2 & _ & _ & Hrun2).
  destruct (show_matches_items w1' _ Hrun2) as [Hix2 Hoff2].
  eexists. split; [done|]. split.
  { unfold SongListBox.perform_filtering. rewrite String.eqb_refl, Hne.
    exact Hrun2. }
  assert (Hq : filter_query w1' = filter_query w).
  { unfold w1'. rewrite Hq1, str_drop_last_app_char. by destruct w1. }
  assert (Htw : tracks_walker w1' = tracks_walker w) by (by destruct w).
  assert (Hslug0 : current_page_slug w0 = current_page_slug w)
    by (by destruct w).
  assert (Hslug1 : current_page_slug w1' = current_page_slug w)
    by (by destruct w).
  assert (Hit0 : items w0 = items w) by (by destruct w).
  assert (Hit1 : items w1' = items w1) by (by destruct w1).
  rewrite Hit0 in Hix1, Hoff1. rewrite Hit1 in Hix2, Hoff2.
  rewrite Hslug0 in Hoff1. rewrite Hslug1 in Hoff2.
  set (w2 := set_items store2 _) in *.
  assert (Hix : same_but_index (items w) (items w2))
    by (by eapply same_but_index_trans).
  split; [rewrite <- Hq; by destruct w1'|].
  split; [rewrite <- Htw; by destruct w1'|].
  split; [done|].
  split; [intros Hoff; by rewrite Hoff2, Hoff1|].
  transitivity (SongListBox.get_filtered_items w1'); [by destruct w1'|].
  rewrite <- get_filtered_items_filter. symmetry.
  apply get_filtered_items_ext; [done|done|].
  rewrite Hit1. by apply same_but_index_same_titles.
Qed.

(** X4: with an empty query (and a lower-casing that keeps the empty string
    empty) the filter shows every song item of the snapshot and drops
    nothing but placeholders. *)
Theorem empty_query_shows_all_songs (w : World) :
  str_lower "" = "" →
  filter_query w = "" →
  ∀ x, x ∈ SongListBox.get_filtered_items w ↔
       x ∈ tracks_walker w ∧
       ∃ r songitem, x = SongItem r ∧ items w !! r = Some songitem.
Proof.
  intros Hlower Hq x.
  rewrite get_filtered_items_filter, list_elem_of_filter. split.
  - intros [Hm Hx]. split; [done|]. destruct x as [r|text]; [|done].
    simpl in Hm. destruct (items w !! r) as [songitem|] eqn:Hr; [|done].
    by exists r, songitem.
  - intros [Hx (r & songitem & -> & Hr)]. split; [|done].
    simpl. by rewrite Hr, Hq, Hlower, str_in_empty.
Qed.

(** X5: [item_activated] changes nothing of the song list but the walker:
    items (their states too), tracks, snapshot, query and filtering flag
    stay; the walker stays as well unless filtering is on and the page is
    not the search page, when it is refreshed from the filter.  Where the
    walker is not assigned, its focus stays too; where it is assigned,
    nothing is said of the focus. *)
Theorem item_activated_frame (r : nat) (w : World) :
  items (SongListBox.item_activated r w) = items w ∧
  (hotkey_filtering w && negb (String.eqb (current_page_slug w) "search")
     = false →
   walker (SongListBox.item_activated r w) = walker w ∧
   walker_focus (SongListBox.item_activated r w) = walker_focus w) ∧
  tracks (SongListBox.item_activated r w) = tracks w ∧
  tracks_walker (SongListBox.item_activated r w) = tracks_walker w ∧
  filter_query (SongListBox.item_activated r w) = filter_query w ∧
  hotkey_filtering (SongListBox.item_activated r w) = hotkey_filtering w ∧
  walker (SongListBox.item_activated r w) =
    (if bool_decide (is_Some (items w !! r)) && hotkey_filtering w &&
        negb (String.eqb (current_page_slug w) "search")
     then SongListBox.get_filtered_items w else walker w).
Proof.
  unfold SongListBox.item_activated.
  destruct (items w !! r) as [songitem|] eqn:Hr; [|done].
  set (w1 := if SongListItem.is_currently_played songitem then _ else _).
  assert (Hw1 : ∃ p, w1 = set_player p w).
  { unfold w1, SongListBox.item_append_requested. rewrite Hr.
    destruct (SongListItem.is_currently_played songitem); [eauto|].
    destruct (String.eqb (current_page_slug w) "queue"); [eauto|].
    destruct (current_page_append w || hotkey_filtering w); eauto. }
  destruct Hw1 as [p ->].
  replace (hotkey_filtering (set_player p w)) with (hotkey_filtering w)
    by (by destruct w).
  replace (current_page_slug (set_player p w)) with (current_page_slug w)
    by (by destruct w).
  rewrite bool_decide_eq_true_2 by eauto. simpl.
  destruct (hotkey_filtering w && negb _) eqn:Hf.
  - split; [by destruct w|]. split; [done|].
    repeat (split; [by destruct w|]).
    transitivity (SongListBox.get_filtered_items (set_player p w));
      [by destruct w|].
    apply get_filtered_items_ext; try (by destruct w).
    replace (items (set_player p w)) with (items w) by (by destruct w).
    apply same_titles_refl.
  - split; [by destruct w|]. split; [intros _; by destruct w|].
    repeat (split; [by destruct w|]). by destruct w.
Qed.

End FilteringMore.

Section PopulateMore.
Context `{Collaborators}.

Lemma is_current_track_decide (current_track : option Track.t) (track : Track.t) :
  is_current_track current_track track =
  bool_decide (current_track = Some track).
Proof.
  destruct current_track as [c|]; simpl; [|done].
  unfold Track.eqb. rewrite N_eqb_bool_decide.
  apply bool_decide_ext. split; congruence.
Qed.

Lemma tracks_to_songlist_loop_full (current_track : option Track.t)
  (ts : list Track.t) (index : nat) (store : list SongListItem.t)
  (songitems : list Widget) (current_index : option nat) :
  SongListBox.tracks_to_songlist_loop current_track ts index store songitems
    current_index =
  (store ++ (new_songitem current_track <$> ts),
   songitems ++ (SongItem <$> seq (length store) (length ts)),
   match current_index with
   | Some _ => current_index
   | None =>
       (λ p : nat * Track.t, index + p.1) <$>
       list_find (λ t, is_current_track current_track t) ts
   end).
Proof.
  revert index store songitems current_index.
  induction ts as [|track ts IH]; intros index store songitems current_index.
  - simpl. rewrite !app_nil_r. by destruct current_index.
  - simpl SongListBox.tracks_to_songlist_loop.
    fold (is_current_track current_track track).
    rewrite IH. rewrite <- !app_assoc, length_app. simpl length.
    rewrite Nat.add_1_r. simpl. unfold new_songitem at 2.
    do 2 f_equal.
    destruct current_index as [ci|];
      [by destruct (is_current_track current_track track)|].
    destruct (is_current_track current_track track) eqn:Hc.
    + rewrite decide_True by (by apply Is_true_true). simpl.
      by rewrite Nat.add_0_r.
    + rewrite decide_False by (by apply Is_true_false).
      destruct (list_find _ ts) as [[j t]|]; simpl; [|done].
      f_equal. lia.
Qed.

Lemma update_indexes_loop_other (ws : list Widget) (i : nat)
  (store store' : list SongListItem.t) (r : nat) :
  SongListBox.update_indexes_loop ws i store = Some store' →
  SongItem r ∉ ws → store' !! r = store !! r.
Proof.
  revert i store. induction ws as [|[r0|text] ws IH]; intros i store Hrun Hnot;
    simpl in Hrun; simplify_eq; [done|].
  apply not_elem_of_cons in Hnot as [Hne Hnot].
  rewrite (IH _ _ Hrun Hnot). apply list_lookup_alter_ne. congruence.
Qed.

Lemma update_indexes_loop_last (ws : list Widget) (i : nat)
  (store store' : list SongListItem.t) (p r : nat) :
  SongListBox.update_indexes_loop ws i store = Some store' →
  ws !! p = Some (SongItem r) →
  (∀ j, p < j → ws !! j ≠ Some (SongItem r)) →
  store' !! r = SongListItem.set_index (Z.of_nat (i + p)) <$> store !! r.
Proof.
  revert i store p.
  induction ws as [|[r0|text] ws IH]; intros i store p Hrun Hp Hlast;
    simpl in Hrun; simplify_eq.
  destruct p as [|p]; simpl in Hp.
  - simplify_eq. rewrite Nat.add_0_r.
    rewrite (update_indexes_loop_other _ _ _ _ r Hrun).
    + apply list_lookup_alter_eq.
    + intros Hin. apply list_elem_of_lookup in Hin as [j Hj].
      apply (Hlast (S j)); [lia|done].
  - rewrite (IH _ _ p Hrun Hp).
    2:{ intros j Hj. apply (Hlast (S j)). lia. }
    replace (S i + p) with (i + S p) by lia.
    destruct (decide (r0 = r)) as [->|Hne].
    + rewrite list_lookup_alter_eq. by destruct (store !! r).
    + by rewrite list_lookup_alter_ne.
Qed.

Lemma update_indexes_loop_is_Some (ws : list Widget) (i : nat)
  (store : list SongListItem.t) :
  is_Some (SongListBox.update_indexes_loop ws i store) ↔
  Forall is_song_item ws.
Proof.
  split; [|apply update_indexes_loop_song_items].
  revert i store. induction ws as [|[r|text] ws IH]; intros i store Hsome;
    simpl in Hsome; [constructor| |by destruct Hsome].
  constructor; [by exists r|]. by eapply IH.
Qed.

Lemma update_indexes_loop_length (ws : list Widget) (i : nat)
  (store store' : list SongListItem.t) :
  SongListBox.update_indexes_loop ws i store = Some store' →
  length store' = length store.
Proof.
  intros Hrun.
  assert (Hst : same_titles store store')
    by (eapply update_indexes_loop_same_titles; [apply same_titles_refl|done]).
  symmetry. exact (Forall2_length _ _ _ Hst).
Qed.

Lemma update_indexes_loop_state (ws : list Widget) (i : nat)
  (store store' : list SongListItem.t) (r : nat) :
  SongListBox.update_indexes_loop ws i store = Some store' →
  SongListItem.state <$> store' !! r = SongListItem.state <$> store !! r.
Proof.
  revert i store. induction ws as [|[r0|text] ws IH]; intros i store Hrun;
    simpl in Hrun; simplify_eq; [done|].
  rewrite (IH _ _ Hrun). destruct (decide (r0 = r)) as [->|Hne].
  - rewrite list_lookup_alter_eq. by destruct (store !! r).
  - by rewrite list_lookup_alter_ne.
Qed.

(** X6: [update_indexes] succeeds exactly when the walker holds no
    placeholder (a placeholder has no [set_index]).  When it succeeds the
    walker is the same, the items keep track, rating icon and state, items
    outside the walker are untouched, and an item of the walker has the
    number of its (last) position as index. *)
Theorem update_indexes_renumbers (w : World) :
  (is_Some (SongListBox.update_indexes w) ↔ Forall is_song_item (walker w)) ∧
  ∀ w', SongListBox.update_indexes w = Some w' →
    walker w' = walker w ∧
    length (items w') = length (items w) ∧
    same_titles (items w) (items w') ∧
    (∀ r, SongListItem.state <$> items w' !! r =
          SongListItem.state <$> items w !! r) ∧
    (∀ r, SongItem r ∉ walker w → items w' !! r = items w !! r) ∧
    (∀ i r, walker w !! i = Some (SongItem r) →
       (∀ j, i < j → walker w !! j ≠ Some (SongItem r)) →
       SongListItem.index <$> items w' !! r =
       (λ _, Z.of_nat i) <$> items w !! r).
Proof.
  unfold SongListBox.update_indexes. split.
  - rewrite <- (update_indexes_loop_is_Some (walker w) 0 (items w)).
    destruct (SongListBox.update_indexes_loop _ _ _); simpl; split; eauto;
      by intros [? ?].
  - intros w' Hrun.
    destruct (SongListBox.update_indexes_loop (walker w) 0 (items w))
      as [store'|] eqn:Hloop; simpl in Hrun; simplify_eq.
    split; [by destruct w|].
    replace (items (set_items store' w)) with store' by (by destruct w).
    split; [by eapply update_indexes_loop_length|].
    split; [eapply update_indexes_loop_same_titles;
            [apply same_titles_refl|done]|].
    split; [intros r; by eapply update_indexes_loop_state|].
    split; [intros r Hr; by eapply update_indexes_loop_other|].
    intros i r Hi Hlast.
    rewrite (update_indexes_loop_last _ _ _ _ i r Hloop Hi Hlast).
    by destruct (items w !! r).
Qed.

Lemma new_songitem_fields (current_track : option Track.t) (track : Track.t) :
  SongListItem.track (new_songitem current_track track) = track ∧
  SongListItem.state (new_songitem current_track track) =
    (if bool_decide (current_track = Some track)
     then States.loading else States.idle).
Proof.
  unfold new_songitem. rewrite is_current_track_decide.
  by destruct (bool_decide _).
Qed.

(** X7: [populate ts] puts in loading state exactly the items whose track is
    the player's current one and leaves the others idle; it focuses the
    first position of the current track, or position 0 when the list is not
    empty and the current track is not in it; the player and the filter
    snapshot are not touched.  (Nothing is said of the focus after
    [populate] of an empty list, where the code calls no [set_focus].) *)
Theorem populate_marks_current (w : World) (ts : list Track.t) :
  ∃ w', SongListBox.populate ts w = Some w' ∧
    player w' = player w ∧
    tracks_walker w' = tracks_walker w ∧
    (∀ i r songitem,
       walker w' !! i = Some (SongItem r) → items w' !! r = Some songitem →
       SongListItem.state songitem =
         (if bool_decide (player_get_current_track (player w) =
                          Some (SongListItem.track songitem))
          then States.loading else States.idle)) ∧
    (∀ i current,
       player_get_current_track (player w) = Some current →
       ts !! i = Some current →
       (∀ j, j < i → ts !! j ≠ Some current) →
       walker_focus w' = Some i) ∧
    (ts ≠ [] →
     (∀ current, player_get_current_track (player w) = Some current →
                 current ∉ ts) →
     walker_focus w' = Some 0).
Proof.
  unfold SongListBox.populate, SongListBox.tracks_to_songlist.
  replace (tracks (set_tracks ts w)) with ts by (by destruct w).
  replace (player (set_tracks ts w)) with (player w) by (by destruct w).
  replace (items (set_tracks ts w)) with (items w) by (by destruct w).
  rewrite tracks_to_songlist_loop_full. simpl app.
  set (cur := player_get_current_track (player w)).
  set (news := new_songitem cur <$> ts).
  set (w1 := set_walker _ _).
  set (store' := items w ++
         imap (λ j, SongListItem.set_index (Z.of_nat (0 + j))) news).
  assert (Hlen : length news = length ts) by apply length_fmap.
  assert (Hupd : SongListBox.update_indexes w1 = Some (set_items store' w1)).
  { unfold SongListBox.update_indexes.
    replace (walker w1)
      with (SongItem <$> seq (length (items w)) (length news))
      by (rewrite Hlen; by destruct w).
    replace (items w1) with (items w ++ news) by (by destruct w).
    by rewrite update_indexes_loop_fresh. }
  rewrite Hupd. simpl.
  set (w2 := set_items store' w1).
  assert (Hstate : ∀ w' : World,
    walker w' = walker w2 → items w' = items w2 →
    ∀ i r songitem,
      walker w' !! i = Some (SongItem r) → items w' !! r = Some songitem →
      SongListItem.state songitem =
        (if bool_decide (cur = Some (SongListItem.track songitem))
         then States.loading else States.idle)).
  { intros w' -> -> i r songitem.
    replace (walker w2) with (SongItem <$> seq (length (items w)) (length ts))
      by (by destruct w).
    replace (items w2) with store' by (by destruct w).
    rewrite list_lookup_fmap. intros Hi Hr.
    destruct (seq _ _ !! i) as [a|] eqn:Ha; [|done].
    apply lookup_seq in Ha as [-> Hlt]. simpl in Hi. simplify_eq.
    unfold store' in Hr. rewrite lookup_app_r in Hr by lia.
    replace (length (items w) + i - length (items w)) with i in Hr by lia.
    rewrite list_lookup_imap in Hr. unfold news in Hr.
    rewrite list_lookup_fmap in Hr.
    destruct (ts !! i) as [t|]; [|done]. simpl in Hr. simplify_eq.
    destruct (new_songitem_fields cur t) as [Ht Hs]. simpl.
    by rewrite Ht. }
  destruct (list_find (λ t, is_current_track cur t) ts) as [[i0 t0]|] eqn:Hfind;
    simpl.
  - apply list_find_Some in Hfind as (Hi0 & Hp & Hfirst).
    apply Is_true_true in Hp. rewrite is_current_track_decide in Hp.
    apply bool_decide_eq_true_1 in Hp.
    eexists. split; [done|].
    split; [by destruct w|]. split; [by destruct w|].
    split; [apply Hstate; by destruct w|]. split.
    + intros i current Hcur Hi Hbefore.
      replace (walker_focus _) with (Some i0) by (by destruct w). f_equal.
      assert (t0 = current) by congruence. subst t0.
      destruct (lt_eq_lt_dec i0 i) as [[Hlt| ->]|Hlt]; [|done|].
      * by destruct (Hbefore i0 Hlt).
      * exfalso. apply (Hfirst i current Hi Hlt).
        apply Is_true_true. rewrite is_current_track_decide.
        by apply bool_decide_eq_true_2.
    + intros _ Hnotin. exfalso. apply (Hnotin t0 Hp).
      by eapply list_elem_of_lookup_2.
  - apply list_find_None in Hfind.
    assert (Hcase :
      ∃ w', (if bool_decide
                  (1 ≤ length (SongItem <$> seq (length (items w)) (length ts)))
             then Some (SongListBox.set_focus 0 w2) else Some w2) = Some w' ∧
        walker w' = walker w2 ∧ items w' = items w2 ∧
        player w' = player w ∧ tracks_walker w' = tracks_walker w ∧
        (ts ≠ [] → walker_focus w' = Some 0)).
    { rewrite length_fmap, length_seq. destruct ts as [|t ts']; simpl.
      - exists w2. by destruct w.
      - eexists. split; [done|]. by destruct w. }
    destruct Hcase as (w' & -> & Hwk & Hit & Hpl & Htw & Hfocus).
    exists w'. split; [done|]. split; [done|]. split; [done|].
    split; [by apply Hstate|]. split; [|intros Hne _; by apply Hfocus].
    intros i current Hcur Hi _. exfalso.
    rewrite Forall_forall in Hfind. apply (Hfind current).
    + by eapply list_elem_of_lookup_2.
    + apply Is_true_true. rewrite is_current_track_decide.
      by apply bool_decide_eq_true_2.
Qed.

(** X8: [append_track] succeeds exactly when the walker holds no
    placeholder.  It then adds one new item for the track at the end of the
    walker, numbered with its position and loading when the track is the
    player's current one; [self.tracks], the filter snapshot and the player
    are not touched. *)
Theorem append_track_appends (track : Track.t) (w : World) :
  (is_Some (SongListBox.append_track track w) ↔
   Forall is_song_item (walker w)) ∧
  ∀ w', SongListBox.append_track track w = Some w' →
    walker w' = walker w ++ [SongItem (length (items w))] ∧
    (∃ songitem,
       items w' !! length (items w) = Some songitem ∧
       SongListItem.track songitem = track ∧
       SongListItem.index songitem = Z.of_nat (length (walker w)) ∧
       SongListItem.state songitem =
         (if bool_decide (player_get_current_track (player w) = Some track)
          then States.loading else States.idle)) ∧
    tracks w' = tracks w ∧
    tracks_walker w' = tracks_walker w ∧
    player w' = player w.
Proof.
  unfold SongListBox.append_track, SongListBox.tracks_to_songlist.
  rewrite tracks_to_songlist_loop_full. simpl.
  set (cur := player_get_current_track (player w)).
  set (w1 := set_walker _ _).
  assert (Hwk : walker w1 = walker w ++ [SongItem (length (items w))])
    by (by destruct w).
  assert (Hit : items w1 = items w ++ [new_songitem cur track])
    by (by destruct w).
  unfold SongListBox.update_indexes. rewrite Hwk, Hit. split.
  - transitivity (is_Some (SongListBox.update_indexes_loop
                    (walker w ++ [SongItem (length (items w))]) 0
                    (items w ++ [new_songitem cur track]))).
    { destruct (SongListBox.update_indexes_loop _ _ _); simpl; split; eauto;
        by intros [? ?]. }
    rewrite update_indexes_loop_is_Some, Forall_app. split; [tauto|].
    intros Hall. split; [done|]. constructor; [by eexists|constructor].
  - intros w' Hrun.
    destruct (SongListBox.update_indexes_loop _ _ _) as [store'|] eqn:Hloop;
      simpl in Hrun; simplify_eq.
    split; [by destruct w|]. split; [|by destruct w].
    replace (items (set_items store' w1)) with store' by (by destruct w).
    rewrite (update_indexes_loop_last _ _ _ _ (length (walker w))
               (length (items w)) Hloop).
    + rewrite lookup_app_r, Nat.sub_diag by lia. simpl.
      eexists. split; [done|].
      destruct (new_songitem_fields cur track) as [Ht Hs]. by rewrite <- Hs.
    + rewrite lookup_app_r, Nat.sub_diag by lia. done.
    + intros j Hj. rewrite lookup_ge_None_2; [done|].
      rewrite length_app. simpl. lia.
Qed.

End PopulateMore.

Section NotificationsMore.
Context `{Collaborators}.

Lemma media_state_changed_loop_store (current_track : Track.t) (s : States.t)
  (ws : list Widget) (store : list SongListItem.t) :
  SongListBox.media_state_changed_loop current_track s ws store =
  foldl (λ st x, match x with
                 | SongItem r => alter (media_state_item current_track s) r st
                 | Text _ => st
                 end) store ws.
Proof.
  revert store. induction ws as [|[r|text] ws IH]; intros store; simpl;
    [done| |done].
  destruct (store !! r) as [songitem|] eqn:Hr.
  - rewrite (alter_lookup_Some _ _ _ _ Hr). unfold media_state_item.
    destruct (Track.eqb _ _); [apply IH|].
    rewrite (list_insert_id _ _ _ Hr). apply IH.
  - rewrite (alter_lookup_None _ _ _ Hr). apply IH.
Qed.

Lemma media_state_item_idemp (current_track : Track.t) (s : States.t)
  (songitem : SongListItem.t) :
  media_state_item current_track s (media_state_item current_track s songitem) =
  media_state_item current_track s songitem.
Proof.
  unfold media_state_item.
  destruct (Track.eqb (SongListItem.track songitem) current_track) eqn:Ht;
    simpl; by rewrite Ht.
Qed.

(** X9: [media_state_changed] does nothing when the player has no current
    track.  Otherwise every song item of the walker whose track is the
    current one gets the state loading, playing or paused (loading before
    playing), and nothing else changes: other items keep their state,
    items outside the walker, the walker, the focus and the player stay. *)
Theorem media_state_changed_marks (is_loading is_playing : bool) (w : World) :
  (player_get_current_track (player w) = None →
   SongListBox.media_state_changed is_loading is_playing w = w) ∧
  ∀ current, player_get_current_track (player w) = Some current →
    walker (SongListBox.media_state_changed is_loading is_playing w) = walker w ∧
    walker_focus (SongListBox.media_state_changed is_loading is_playing w) =
      walker_focus w ∧
    player (SongListBox.media_state_changed is_loading is_playing w) = player w ∧
    (∀ r songitem,
       SongItem r ∈ walker w → items w !! r = Some songitem →
       items (SongListBox.media_state_changed is_loading is_playing w) !! r =
       Some (if bool_decide (SongListItem.track songitem = current)
             then SongListItem.set_state
                    (if is_loading then States.loading
                     else if is_playing then States.playing
                     else States.paused) songitem
             else songitem)) ∧
    (∀ r, SongItem r ∉ walker w →
       items (SongListBox.media_state_changed is_loading is_playing w) !! r =
       items w !! r).
Proof.
  unfold SongListBox.media_state_changed. split.
  - by intros ->.
  - intros current ->. rewrite media_state_changed_loop_store.
    split; [by destruct w|]. split; [by destruct w|]. split; [by destruct w|].
    split.
    + intros r songitem Hin Hr.
      replace (items (set_items _ w) !! r)
        with (foldl (λ st x, match x with
                 | SongItem r => alter (media_state_item current
                     (if is_loading then States.loading
                      else if is_playing then States.playing
                      else States.paused)) r st
                 | Text _ => st
                 end) (items w) (walker w) !! r) by (by destruct w).
      rewrite foldl_alter_lookup_in, Hr;
        [|apply media_state_item_idemp|done].
      simpl. f_equal. unfold media_state_item, Track.eqb.
      by rewrite N_eqb_bool_decide.
    + intros r Hnot.
      replace (items (set_items _ w) !! r)
        with (foldl (λ st x, match x with
                 | SongItem r => alter (media_state_item current
                     (if is_loading then States.loading
                      else if is_playing then States.playing
                      else States.paused)) r st
                 | Text _ => st
                 end) (items w) (walker w) !! r) by (by destruct w).
      by apply foldl_alter_lookup_notin.
Qed.

Lemma foldl_alter_length {A} (f : A → A) (ws : list Widget) (store : list A) :
  length (foldl (λ st x, match x with
                         | SongItem r => alter f r st
                         | Text _ => st
                         end) store ws) = length store.
Proof.
  revert store. induction ws as [|[r|text] ws IH]; intros store; simpl;
    [done| |apply IH].
  by rewrite IH, length_alter.
Qed.

Lemma foldl_alter_twice {A} (f : A → A) (ws : list Widget) (store : list A) :
  (∀ x, f (f x) = f x) →
  foldl (λ st x, match x with
                 | SongItem r => alter f r st
                 | Text _ => st
                 end)
    (foldl (λ st x, match x with
                    | SongItem r => alter f r st
                    | Text _ => st
                    end) store ws) ws =
  foldl (λ st x, match x with
                 | SongItem r => alter f r st
                 | Text _ => st
                 end) store ws.
Proof.
  intros Hidem. apply list_eq. intros r.
  destruct (decide (SongItem r ∈ ws)) as [Hin|Hnot].
  - rewrite !foldl_alter_lookup_in by done.
    destruct (store !! r); simpl; [by rewrite Hidem|done].
  - by rewrite !foldl_alter_lookup_notin.
Qed.

(** X10: a repeated [track_changed] notification for the same track changes
    nothing more: states, walker and focus are as after the first one. *)
Theorem track_changed_idempotent (T : Track.t) (w : World) :
  SongListBox.track_changed T (SongListBox.track_changed T w) =
  SongListBox.track_changed T w.
Proof.
  unfold SongListBox.track_changed at 2.
  destruct (SongListBox.track_changed_loop (current_page_slug w) T (walker w)
              0 (items w) (walker_focus w)) as [store focus] eqn:Hrun.
  assert (Hstore : store =
    (SongListBox.track_changed_loop (current_page_slug w) T (walker w) 0
       (items w) (walker_focus w)).1) by (by rewrite Hrun).
  assert (Hfocus : focus =
    (SongListBox.track_changed_loop (current_page_slug w) T (walker w) 0
       (items w) (walker_focus w)).2) by (by rewrite Hrun).
  rewrite track_changed_loop_store in Hstore.
  assert (Hst : same_titles (items w) store).
  { rewrite Hstore. apply foldl_alter_same_titles, same_titles_refl. }
  unfold SongListBox.track_changed.
  replace (current_page_slug (set_walker_focus focus (set_items store w)))
    with (current_page_slug w) by (by destruct w).
  replace (walker (set_walker_focus focus (set_items store w)))
    with (walker w) by (by destruct w).
  replace (items (set_walker_focus focus (set_items store w)))
    with store by (by destruct w).
  replace (walker_focus (set_walker_focus focus (set_items store w)))
    with focus by (by destruct w).
  destruct (SongListBox.track_changed_loop (current_page_slug w) T (walker w)
              0 store focus) as [store2 focus2] eqn:Hrun2.
  assert (Hstore2 : store2 = store).
  { replace store2 with
      (SongListBox.track_changed_loop (current_page_slug w) T (walker w) 0
         store focus).1 by (by rewrite Hrun2).
    rewrite track_changed_loop_store, Hstore.
    apply foldl_alter_twice, track_changed_item_idemp. }
  assert (Hfocus2 : focus2 = focus).
  { replace focus2 with
      (SongListBox.track_changed_loop (current_page_slug w) T (walker w) 0
         store focus).2 by (by rewrite Hrun2).
    assert (Hmatch : ∀ j,
      matches_at (current_page_slug w) T (items w) (walker w) j →
      (SongListBox.track_changed_loop (current_page_slug w) T (walker w) 0
         store focus).2 = focus).
    { intros j Hj.
      destruct (track_changed_loop_focus_last (current_page_slug w) T
                  (items w) (walker w) 0 (items w) (walker_focus w) j
                  (same_titles_refl _) Hj) as (k & Hjk & Hk & Hmk).
      destruct (track_changed_loop_focus_last (current_page_slug w) T
                  (items w) (walker w) 0 store focus k Hst Hmk)
        as (k2 & Hkk2 & Hk2 & Hmk2).
      destruct (track_changed_loop_focus_last (current_page_slug w) T
                  (items w) (walker w) 0 (items w) (walker_focus w) k2
                  (same_titles_refl _) Hmk2) as (k3 & Hk2k3 & Hk3 & _).
      rewrite Hk2, Hfocus, Hk. rewrite Hk in Hk3. simplify_eq.
      f_equal. lia. }
    destruct (track_changed_loop_focus_cases (current_page_slug w) T
                (items w) (walker w) 0 store focus Hst)
      as [Hsame|(k & _ & Hk)]; [done|by eapply Hmatch]. }
  rewrite Hstore2, Hfocus2, Hrun. by destruct w.
Qed.

End NotificationsMore.

Section RemoveTrackProperties.
Context `{Collaborators}.

Lemma list_remove_first_middle (x : Widget) (pre rest : list Widget) :
  x ∉ pre → list_remove_first x (pre ++ x :: rest) = pre ++ rest.
Proof.
  induction pre as [|y pre IH]; intros Hnot; simpl.
  - by rewrite decide_True.
  - apply not_elem_of_cons in Hnot as [Hne Hnot].
    rewrite decide_False by done. by rewrite IH.
Qed.

(** With enough fuel the loop of [remove_track], standing at the end of
    [pre], leaves [pre] followed by [skip_remove] of the rest. *)
Lemma remove_track_loop_skip (fuel : nat) (track : Track.t)
  (store : list SongListItem.t) (pre suf : list Widget) :
  NoDup (pre ++ suf) →
  Forall is_song_item suf →
  length suf < fuel →
  remove_track_loop fuel track store (pre ++ suf) (length pre) =
  Some (pre ++ skip_remove (widget_has_track store track) suf).
Proof.
  revert pre suf. induction fuel as [|fuel IH]; intros pre suf Hnd Hall Hlen;
    [lia|].
  destruct suf as [|x rest].
  { simpl. rewrite lookup_ge_None_2 by (rewrite app_nil_r; lia). done. }
  simpl remove_track_loop.
  rewrite lookup_app_r, Nat.sub_diag by lia. simpl lookup.
  apply Forall_cons in Hall as [[r ->] Hrest].
  assert (Hstep : ∀ y rest',
    NoDup (pre ++ y :: rest') → Forall is_song_item rest' →
    length rest' < fuel →
    remove_track_loop fuel track store (pre ++ y :: rest') (S (length pre)) =
    Some (pre ++ y :: skip_remove (widget_has_track store track) rest')).
  { intros y rest' Hnd' Hall' Hlen'.
    replace (pre ++ y :: rest') with ((pre ++ [y]) ++ rest')
      by (by rewrite <- app_assoc).
    replace (S (length pre)) with (length (pre ++ [y]))
      by (rewrite length_app; simpl; lia).
    rewrite IH; [by rewrite <- app_assoc| |done|done].
    by rewrite <- app_assoc. }
  simpl in Hlen.
  assert (Hkeep :
    remove_track_loop fuel track store (pre ++ SongItem r :: rest)
      (S (length pre)) =
    Some (pre ++ SongItem r ::
            skip_remove (widget_has_track store track) rest)).
  { apply Hstep; [done|done|lia]. }
  simpl skip_remove. simpl widget_has_track.
  destruct (store !! r) as [songlistitem|]; [|exact Hkeep].
  destruct (Track.eqb (SongListItem.track songlistitem) track); [|exact Hkeep].
  rewrite list_remove_first_middle.
  2:{ apply NoDup_app in Hnd as (_ & Hdisj & _). intros Hin.
      apply (Hdisj _ Hin). apply elem_of_cons. by left. }
  assert (Hnd' : NoDup (pre ++ rest)).
  { apply NoDup_app in Hnd as (Hpre & Hdisj & Hsuf).
    apply NoDup_cons in Hsuf as [_ Hsuf].
    apply NoDup_app. split; [done|]. split; [|done].
    intros y Hy Hin. apply (Hdisj y Hy). apply elem_of_cons. by right. }
  destruct rest as [|y rest'].
  - destruct fuel as [|fuel']; simpl; [done|].
    by rewrite lookup_ge_None_2 by (rewrite app_nil_r; lia).
  - apply Forall_cons in Hrest as [_ Hrest'].
    apply Hstep; [done|done|simpl in Hlen; lia].
Qed.

Lemma skip_remove_sublist (P : Widget → bool) (ws : list Widget) :
  skip_remove P ws `sublist_of` ws.
Proof.
  assert (Hboth : ∀ ws, skip_remove P ws `sublist_of` ws ∧
                        ∀ x, skip_remove P (x :: ws) `sublist_of` x :: ws).
  { clear ws. intros ws. induction ws as [|y ws [IH1 IH2]].
    - split; [done|]. intros x. simpl. destruct (P x); [|done].
      apply sublist_nil_l.
    - split; [apply IH2|]. intros x. simpl. destruct (P x).
      + apply sublist_cons. by apply sublist_skip.
      + apply sublist_skip. apply IH2. }
  apply Hboth.
Qed.

Lemma skip_remove_keeps (P : Widget → bool) (ws : list Widget) (x : Widget) :
  x ∈ ws → P x = false → x ∈ skip_remove P ws.
Proof.
  assert (Hboth : ∀ ws,
    (x ∈ ws → P x = false → x ∈ skip_remove P ws) ∧
    ∀ y, x ∈ y :: ws → P x = false → x ∈ skip_remove P (y :: ws)).
  { clear ws. intros ws. induction ws as [|z ws [IH1 IH2]].
    - split; [by intros ?%elem_of_nil|]. intros y Hin Hx.
      apply elem_of_cons in Hin as [->|Hin]; [|by apply elem_of_nil in Hin].
      simpl. rewrite Hx. apply elem_of_cons. by left.
    - split; [apply IH2|]. intros y Hin Hx. simpl.
      apply elem_of_cons in Hin as [->|Hin].
      + rewrite Hx. apply elem_of_cons. by left.
      + destruct (P y).
        * apply elem_of_cons in Hin as [->|Hin].
          -- apply elem_of_cons. by left.
          -- apply elem_of_cons. right. by apply IH1.
        * apply elem_of_cons. right. by apply IH2. }
  apply Hboth.
Qed.

Lemma skip_remove_no_match (P : Widget → bool) (pre ws : list Widget) :
  Forall (λ x, P x = false) pre →
  skip_remove P (pre ++ ws) = pre ++ skip_remove P ws.
Proof.
  induction 1 as [|x pre Hx _ IH]; simpl; [done|]. by rewrite Hx, IH.
Qed.

Lemma skip_remove_isolated (P : Widget → bool) (ws : list Widget) :
  (∀ i x y, ws !! i = Some x → ws !! S i = Some y →
            P x = true → P y = false) →
  skip_remove P ws = filter (λ x, P x = false) ws.
Proof.
  induction ws as [|x rest IH]; intros Hiso; [done|].
  assert (IH' : skip_remove P rest = filter (λ x, P x = false) rest).
  { apply IH. intros i a b Ha Hb. apply (Hiso (S i)); done. }
  simpl. destruct (P x) eqn:Hx.
  - rewrite filter_cons_False by (rewrite Hx; done).
    destruct rest as [|y rest']; [done|].
    assert (Hy : P y = false) by (by apply (Hiso 0 x y)).
    rewrite <- IH'. simpl. by rewrite Hy.
  - rewrite filter_cons_True by done. by rewrite IH'.
Qed.

Lemma remove_track_walker (track : Track.t) (w : World) :
  NoDup (walker w) →
  Forall is_song_item (walker w) →
  ∃ w', remove_track track w = Some w' ∧
    walker w' = skip_remove (widget_has_track (items w) track) (walker w) ∧
    (∀ i r, walker w' !! i = Some (SongItem r) →
       SongListItem.index <$> items w' !! r =
       (λ _, Z.of_nat i) <$> items w !! r) ∧
    (∀ r, SongListItem.state <$> items w' !! r =
          SongListItem.state <$> items w !! r).
Proof.
  intros Hnd Hall. unfold remove_track.
  rewrite (remove_track_loop_skip _ track (items w) [] (walker w));
    [|done|done|lia].
  simpl. set (ws' := skip_remove _ _).
  assert (Hsub : ws' `sublist_of` walker w) by apply skip_remove_sublist.
  assert (Hnd' : NoDup ws') by (by eapply sublist_NoDup).
  assert (Hall' : Forall is_song_item ws').
  { apply Forall_forall. intros x Hx. rewrite Forall_forall in Hall.
    apply Hall. by apply (sublist_subseteq _ _ Hsub). }
  unfold SongListBox.update_indexes.
  replace (walker (set_walker ws' w)) with ws' by (by destruct w).
  replace (items (set_walker ws' w)) with (items w) by (by destruct w).
  destruct (update_indexes_loop_song_items ws' 0 (items w) Hall')
    as [store' Hrun].
  rewrite Hrun. simpl. eexists. split; [done|].
  split; [by destruct w|].
  replace (items (set_items store' (set_walker ws' w))) with store'
    by (by destruct w).
  replace (walker (set_items store' (set_walker ws' w))) with ws'
    by (by destruct w).
  split.
  - intros i r Hi.
    rewrite (update_indexes_loop_last _ _ _ _ i r Hrun Hi).
    + by destruct (items w !! r).
    + intros j Hj Hjr.
      pose proof (NoDup_lookup _ _ _ _ Hnd' Hi Hjr). lia.
  - intros r. by eapply update_indexes_loop_state.
Qed.

(** X11: on a walker of distinct song items in which no two neighbours are
    both of the given track, [remove_track] succeeds and removes exactly the
    items of that track: the others stay in order and are numbered again by
    position, and no state changes. *)
Theorem remove_track_isolated (track : Track.t) (w : World) :
  NoDup (walker w) →
  Forall is_song_item (walker w) →
  (∀ i x y, walker w !! i = Some x → walker w !! S i = Some y →
            widget_has_track (items w) track x = true →
            widget_has_track (items w) track y = false) →
  ∃ w', remove_track track w = Some w' ∧
    walker w' =
      filter (λ x, widget_has_track (items w) track x = false) (walker w) ∧
    (∀ i r, walker w' !! i = Some (SongItem r) →
       SongListItem.index <$> items w' !! r =
       (λ _, Z.of_nat i) <$> items w !! r) ∧
    (∀ r, SongListItem.state <$> items w' !! r =
          SongListItem.state <$> items w !! r).
Proof.
  intros Hnd Hall Hiso.
  destruct (remove_track_walker track w Hnd Hall) as (w' & Hrun & Hwk & Hrest).
  exists w'. split; [done|]. split; [|done].
  rewrite Hwk. by apply skip_remove_isolated.
Qed.

(** X12: on any walker of distinct song items [remove_track] succeeds; what
    stays is a subsequence of the walker that holds every item of another
    track; but the item right after a removed one is never looked at: when
    the first item of the track is followed by [b], [b] stays whatever its
    track. *)
Theorem remove_track_skips_next (track : Track.t) (w : World) :
  NoDup (walker w) →
  Forall is_song_item (walker w) →
  ∃ w', remove_track track w = Some w' ∧
    walker w' `sublist_of` walker w ∧
    (∀ x, x ∈ walker w → widget_has_track (items w) track x = false →
          x ∈ walker w') ∧
    (∀ pre a b post,
       walker w = pre ++ a :: b :: post →
       Forall (λ x, widget_has_track (items w) track x = false) pre →
       widget_has_track (items w) track a = true →
       ∃ rest, walker w' = pre ++ b :: rest ∧ rest `sublist_of` post).
Proof.
  intros Hnd Hall.
  destruct (remove_track_walker track w Hnd Hall) as (w' & Hrun & Hwk & _).
  exists w'. split; [done|]. rewrite Hwk.
  split; [apply skip_remove_sublist|].
  split; [intros x; apply skip_remove_keeps|].
  intros pre a b post -> Hpre Ha.
  rewrite skip_remove_no_match by done. simpl. rewrite Ha.
  eexists. split; [done|]. apply skip_remove_sublist.
Qed.

Lemma remove_track_loop_no_match (track : Track.t)
  (store : list SongListItem.t) (pre : list Widget) :
  ∀ (fuel : nat) (done_ rest : list Widget),
    Forall (λ x, is_song_item x ∧ widget_has_track store track x = false) pre →
    remove_track_loop (length pre + fuel) track store (done_ ++ pre ++ rest)
      (length done_) =
    remove_track_loop fuel track store (done_ ++ pre ++ rest)
      (length done_ + length pre).
Proof.
  induction pre as [|x pre IH]; intros fuel done_ rest Hall.
  - simpl. by rewrite Nat.add_0_r.
  - apply Forall_cons in Hall as [[[r ->] Hx] Hall].
    simpl length. simpl remove_track_loop.
    rewrite lookup_app_r, Nat.sub_diag by lia. simpl lookup.
    assert (Hnext :
      remove_track_loop (length pre + fuel) track store
        (done_ ++ (SongItem r :: pre) ++ rest) (S (length done_)) =
      remove_track_loop fuel track store
        (done_ ++ (SongItem r :: pre) ++ rest)
        (length done_ + S (length pre))).
    { replace (done_ ++ (SongItem r :: pre) ++ rest)
        with ((done_ ++ [SongItem r]) ++ pre ++ rest)
        by (by rewrite <- app_assoc).
      replace (S (length done_)) with (length (done_ ++ [SongItem r]))
        by (rewrite length_app; simpl; lia).
      rewrite IH by done. f_equal. rewrite length_app. simpl. lia. }
    assert (Hx' : ∀ songlistitem, store !! r = Some songlistitem →
              Track.eqb (SongListItem.track songlistitem) track = false).
    { intros songlistitem Hsr. unfold widget_has_track in Hx.
      by rewrite Hsr in Hx. }
    cbv iota beta.
    match goal with
    | |- match ?o with _ => _ end = _ =>
        destruct o as [songlistitem|] eqn:Hsr; [|exact Hnext]
    end.
    by rewrite (Hx' songlistitem eq_refl).
Qed.

(** X13: [remove_track] raises when its loop comes to stand on a
    placeholder: that is the case when the walker holds one after song
    items of other tracks only, for instance as its first widget. *)
Theorem remove_track_placeholder (track : Track.t) (text : string)
  (pre post : list Widget) (w : World) :
  walker w = pre ++ Text text :: post →
  Forall (λ x, is_song_item x ∧
               widget_has_track (items w) track x = false) pre →
  remove_track track w = None.
Proof.
  intros Hwk Hpre. unfold remove_track. rewrite Hwk.
  replace (S (length (pre ++ Text text :: post)))
    with (length pre + S (S (length post)))
    by (rewrite length_app; simpl; lia).
  pose proof (remove_track_loop_no_match track (items w) pre
                (S (S (length post))) [] (Text text :: post) Hpre) as Hgo.
  simpl in Hgo. rewrite Hgo.
  simpl. by rewrite lookup_app_r, Nat.sub_diag by lia.
Qed.

End RemoveTrackProperties.

(** * The display lines and the context menu *)

Section LinesProperties.
Context `{Collaborators}.
Context (Icons_state : States.t → string) (is_file_cached : Track.t → bool).

Lemma format_0d_two_digits (s : Z) :
  (0 ≤ s < 60)%Z → String.length (format_0d 2 s) = 2.
Proof.
  intros [Hlo Hhi].
  assert (Hn : ∃ n, n < 60 ∧ s = Z.of_nat n).
  { exists (Z.to_nat s). split; lia. }
  destruct Hn as (n & Hn & ->). clear Hlo Hhi.
  do 60 (destruct n as [|n]; [vm_compute; reflexivity|]). lia.
Qed.

(** X14: the time that line 1 shows after the title is [minutes:seconds]
    with [60 * minutes + seconds] the track's duration in whole seconds
    (rounded down) and [seconds] between 0 and 59, always written with two
    digits. *)
Theorem line1_time_fields (track : SongListItem.t) (self : Line1.t) :
  ∃ m s,
    Line1._left (Line1.update_text Icons_state is_file_cached track self) =
      format_d 3 (SongListItem.index track + 1) +:+ " " +:+
      Icons_state (SongListItem.state track) +:+ " " +:+
      Track.title (track_attrs (SongListItem.track track)) +:+ " [" +:+
      format_0d 2 m +:+ ":" +:+ format_0d 2 s +:+ "]" ∧
    (60 * m + s =
     Track.duration (track_attrs (SongListItem.track track)) / 1000)%Z ∧
    (0 ≤ s < 60)%Z ∧
    String.length (format_0d 2 s) = 2.
Proof.
  exists (Line1.minutes (Track.duration (track_attrs (SongListItem.track track)))),
         (Line1.seconds (Track.duration (track_attrs (SongListItem.track track)))).
  set (d := Track.duration (track_attrs (SongListItem.track track))).
  assert (Hs : (0 ≤ Line1.seconds d < 60)%Z)
    by (unfold Line1.seconds; apply Z.mod_pos_bound; lia).
  split.
  { unfold Line1.update_text.
    by destruct (is_file_cached (SongListItem.track track)). }
  split; [|split; [done|]].
  - unfold Line1.minutes, Line1.seconds.
    rewrite <- Z.div_div by lia.
    pose proof (Z.div_mod (d / 1000) 60). lia.
  - by apply format_0d_two_digits.
Qed.

(** X15: what the two lines show depends on the item alone, not on what
    they showed before nor on whether the file is cached: the right-hand
    text of line 1 is always the explicit icon and the rating icon; line 1
    wears the active attribute exactly when the item is currently played
    and line 2 never does; both take the focus variant when the item is
    focused. *)
Theorem lines_show_item_only (is_file_cached' : Track.t → bool)
  (track : SongListItem.t) (self self' : Line1.t) (l2 l2' : Line2.t) :
  Line1.update_text Icons_state is_file_cached track self =
    Line1.update_text Icons_state is_file_cached' track self' ∧
  Line1._right (Line1.update_text Icons_state is_file_cached track self) =
    SongListItem.explicit track +:+ " " +:+ SongListItem.rating track ∧
  Line1._wrap (Line1.update_text Icons_state is_file_cached track self) =
    (if SongListItem.is_currently_played track then "line1_active" else "line1")
    +:+ (if SongListItem.is_focused track then "_focus" else "") ∧
  Line2.update_text track l2 = Line2.update_text track l2' ∧
  Line2._wrap (Line2.update_text track l2) =
    "line2" +:+ (if SongListItem.is_focused track then "_focus" else "").
Proof.
  unfold Line1.update_text, Line2.update_text.
  split; [by destruct (is_file_cached (SongListItem.track track)),
                      (is_file_cached' (SongListItem.track track))|].
  split; [done|]. split; [|split; [done|]].
  - simpl. unfold SongListItem.is_currently_played.
    by destruct (SongListItem.state track), (SongListItem.is_focused track).
  - simpl.
    by destruct (SongListItem.state track), (SongListItem.is_focused track).
Qed.

End LinesProperties.

Section ContextMenuProperties.
Context `{Collaborators}.
Context (in_library : Track.t → bool)
        (track_source : Track.t → string)
        (track_id_str : Track.t → string)
        (cached_url : Track.t → option string)
        (unregister_cancel_action :
           CancelAction → list CancelAction → list CancelAction).

Lemma existsb_track_eqb (track : Track.t) (ts : list Track.t) :
  existsb (Track.eqb track) ts = bool_decide (track ∈ ts).
Proof.
  induction ts as [|t ts IH].
  - symmetry. apply bool_decide_eq_false_2, not_elem_of_nil.
  - simpl. rewrite IH. unfold Track.eqb. rewrite N_eqb_bool_decide.
    destruct (decide (track = t)) as [->|Hne].
    + rewrite (bool_decide_eq_true_2 (t = t)) by done.
      rewrite (bool_decide_eq_true_2 (t ∈ t :: ts)); [done|].
      apply elem_of_cons. by left.
    + rewrite (bool_decide_eq_false_2 _ Hne). simpl.
      apply bool_decide_ext. rewrite elem_of_cons. tauto.
Qed.

(** X16: the popup of an item starts with three text lines and ends with the
    Close button; between them it offers, each after a divider and in this
    order: Add to library or Remove from library (by library membership),
    Create station, Remove from queue or Append to queue (by membership of
    the track in the player's queue), and Copy URL only for a track with a
    cached url. *)
Theorem popup_options_buttons (songitem : SongListItem.t)
  (queue_tracks : list Track.t) :
  popup_options in_library track_source track_id_str cached_url songitem
    queue_tracks =
  [option_text (" " +:+ SongListItem.full_title songitem) "panel";
   option_text (" Source: " +:+ track_source (SongListItem.track songitem))
     "panel_divider";
   option_text (" StoreID: " +:+ track_id_str (SongListItem.track songitem))
     "panel_divider";
   option_divider;
   (if in_library (SongListItem.track songitem)
    then option_button "Remove from library" remove_from_my_library
    else option_button "Add to library" add_to_my_library);
   option_divider;
   option_button "Create station" create_station;
   option_divider;
   (if bool_decide (SongListItem.track songitem ∈ queue_tracks)
    then option_button "Remove from queue" remove_from_queue
    else option_button "Append to queue" append_to_queue)] ++
  (if bool_decide (is_Some (cached_url (SongListItem.track songitem)))
   then [option_divider; option_button "Copy URL to clipboard" copy_url]
   else []) ++
  [option_button "Close" close].
Proof.
  unfold popup_options, _add_item. rewrite existsb_track_eqb.
  destruct (in_library _), (bool_decide (_ ∈ _)),
    (cached_url (SongListItem.track songitem)); reflexivity.
Qed.

(** X17: whatever button of the popup of the item at [r] is pressed while
    the popup is shown, the popup is gone afterwards and the plain content
    is the body again; the song list itself is untouched, the player is
    called only by the queue and station buttons, and only the library and
    clipboard buttons send a request. *)
Theorem popup_press_closes (action : PopupAction) (r r0 : nat)
  (songitem : SongListItem.t) (f : Frame) :
  items (world f) !! r = Some songitem →
  popup (world f) = Some r0 →
  body_is_overlay f = true →
  popup (world (popup_press cached_url unregister_cancel_action action r f)) =
    None ∧
  body_is_overlay (popup_press cached_url unregister_cancel_action action r f) =
    false ∧
  walker (world (popup_press cached_url unregister_cancel_action action r f)) =
    walker (world f) ∧
  items (world (popup_press cached_url unregister_cancel_action action r f)) =
    items (world f) ∧
  player (world (popup_press cached_url unregister_cancel_action action r f)) =
    match action with
    | append_to_queue =>
        player_append_to_queue (SongListItem.track songitem) (player (world f))
    | remove_from_queue =>
        player_remove_from_queue (SongListItem.track songitem) (player (world f))
    | create_station =>
        player_create_station_from_track (SongListItem.track songitem)
          (player (world f))
    | _ => player (world f)
    end ∧
  requests (popup_press cached_url unregister_cancel_action action r f) =
    requests f ++
    match action with
    | add_to_my_library =>
        [add_to_my_library_async (SongListItem.track songitem)]
    | remove_from_my_library =>
        [remove_from_my_library_async (SongListItem.track songitem)]
    | copy_url =>
        match cached_url (SongListItem.track songitem) with
        | Some url => [clipboard_copy url]
        | None => []
        end
    | _ => []
    end.
Proof.
  intros Hr Hpopup Hbody. unfold popup_press. rewrite Hr.
  destruct f as [w body reqs]. destruct w. simpl in *. subst.
  assert (Hshown : bool_decide (Some r0 ≠ None) = true)
    by (by apply bool_decide_eq_true_2).
  destruct action; unfold hide_context_menu, is_context_menu_visible; simpl;
    try destruct (cached_url (SongListItem.track songitem)); simpl;
    rewrite ?Hshown; simpl; rewrite ?app_nil_r; done.
Qed.

End ContextMenuProperties.

Section ContextMenuShowHide.
Context `{Collaborators}.
Context (unregister_cancel_action :
           CancelAction → list CancelAction → list CancelAction).

(** X18: [context_menu_requested] shows the popup of the item;
    [hide_context_menu] then removes it and shows the plain content again
    without touching walker, items or player; [hide_context_menu] does
    nothing when no popup is set, and a second call in a row changes
    nothing. *)
Theorem context_menu_show_hide (r : nat) (f : Frame) :
  is_context_menu_visible (context_menu_requested r f) = true ∧
  popup (world (context_menu_requested r f)) = Some r ∧
  popup (world (hide_context_menu unregister_cancel_action
                  (context_menu_requested r f))) = None ∧
  is_context_menu_visible
    (hide_context_menu unregister_cancel_action (context_menu_requested r f)) =
    false ∧
  walker (world (hide_context_menu unregister_cancel_action
                   (context_menu_requested r f))) = walker (world f) ∧
  items (world (hide_context_menu unregister_cancel_action
                  (context_menu_requested r f))) = items (world f) ∧
  player (world (hide_context_menu unregister_cancel_action
                   (context_menu_requested r f))) = player (world f) ∧
  (popup (world f) = None →
   hide_context_menu unregister_cancel_action f = f) ∧
  hide_context_menu unregister_cancel_action
    (hide_context_menu unregister_cancel_action f) =
  hide_context_menu unregister_cancel_action f.
Proof.
  destruct f as [w body reqs]. destruct w.
  unfold hide_context_menu, is_context_menu_visible, context_menu_requested,
    SongListBox.context_menu_requested. simpl.
  repeat (split; [done|]). split.
  - by intros ->.
  - destruct popup0 as [r0|], body; simpl; done.
Qed.

End ContextMenuShowHide.

Section ItemSignals.
Context `{Collaborators}.

(** X19: the [play] signal of an item toggles play/pause only when the item
    is currently played; on an idle item it changes nothing at all (it does
    not start the track). *)
Theorem play_only_toggles (r : nat) (songitem : SongListItem.t) (w : World) :
  items w !! r = Some songitem →
  SongListBox.call_item SongListItem.play r w =
    (if SongListItem.is_currently_played songitem
     then set_player (player_play_pause (player w)) w
     else w).
Proof.
  intros Hr. unfold SongListBox.call_item, SongListItem.play. rewrite Hr.
  simpl. rewrite (list_insert_id _ _ _ Hr), set_items_same.
  unfold SongListBox.item_play_pause. by rewrite Hr.
Qed.

(** X20: [clear_queue] on an item resets that item alone (idle, not
    focused), moves the focus to position 0 and clears the player's queue;
    every other item keeps its state and the walker is not emptied. *)
Theorem clear_queue_resets_one_item (r : nat) (songitem : SongListItem.t)
  (w : World) :
  items w !! r = Some songitem →
  items (SongListBox.call_item SongListItem.clear_queue r w) =
    <[r := SongListItem.set_is_focused false
             (SongListItem.set_state States.idle songitem)]> (items w) ∧
  (∀ r', r' ≠ r →
     items (SongListBox.call_item SongListItem.clear_queue r w) !! r' =
     items w !! r') ∧
  walker (SongListBox.call_item SongListItem.clear_queue r w) = walker w ∧
  walker_focus (SongListBox.call_item SongListItem.clear_queue r w) = Some 0 ∧
  player (SongListBox.call_item SongListItem.clear_queue r w) =
    player_clear_queue (player w).
Proof.
  intros Hr. unfold SongListBox.call_item, SongListItem.clear_queue.
  rewrite Hr. simpl. unfold SongListBox.clear_queue.
  split; [by destruct w|]. split; [|by destruct w].
  intros r' Hne. destruct w. simpl in *. by apply list_lookup_insert_ne.
Qed.

End ItemSignals.

Section AlbumMore.
Context {Album : Type} (album_lt : Album → Album → bool).

Lemma insert_keyed_last {A} (x : Album * A) (l : list (Album * A)) :
  Forall (λ y, album_lt x.1 y.1 = false) l →
  AlbumListBox.insert_keyed album_lt x l = l ++ [x].
Proof.
  induction 1 as [|y l Hy _ IH]; simpl; [done|]. by rewrite Hy, IH.
Qed.

Lemma foldl_insert_keyed_sorted_input {A} (l acc : list (Album * A)) :
  StronglySorted (λ a b, album_lt b.1 a.1 = false) (acc ++ l) →
  foldl (λ acc x, AlbumListBox.insert_keyed album_lt x acc) acc l = acc ++ l.
Proof.
  revert acc. induction l as [|x l IH]; intros acc Hsorted; simpl.
  - by rewrite app_nil_r.
  - rewrite insert_keyed_last.
    + rewrite IH; rewrite <- app_assoc; done.
    + clear IH. induction acc as [|y acc IHacc]; [constructor|].
      simpl in Hsorted. apply StronglySorted_inv in Hsorted as [Hs Hall].
      constructor; [|by apply IHacc].
      rewrite Forall_app, Forall_cons in Hall. tauto.
Qed.

(** X21: a dict whose albums are already in order (no album less than one
    before it) is shown by [populate] in the order of the dict, ties
    included. *)
Theorem album_populate_keeps_sorted_input (albums : list (string * Album))
  (icon : string) :
  NoDup albums.*1 →
  StronglySorted (λ a b, album_lt b a = false) albums.*2 →
  AlbumListBox.populate album_lt albums icon =
  Some ((λ album, AlbumListBox.mk_item album icon) <$> albums.*2).
Proof.
  intros Hnd Hsorted.
  set (keyed := (λ p : string * Album, (p.2, p.1)) <$> albums).
  assert (Hkeyed :
    mapM (λ x, k ← AlbumListBox.getitem albums x; Some (k, x)) albums.*1 =
    Some keyed).
  { apply mapM_Some_2. unfold keyed. rewrite Forall2_fmap_l, Forall2_fmap_r.
    apply Forall_Forall2_diag, Forall_forall. intros [k a] Hin. simpl.
    by rewrite (getitem_elem_of albums k a Hnd Hin). }
  assert (Hsame :
    foldl (λ acc x, AlbumListBox.insert_keyed album_lt x acc) [] keyed = keyed).
  { apply (foldl_insert_keyed_sorted_input keyed []). simpl. unfold keyed.
    clear -Hsorted. induction albums as [|[k a] albums IH]; [constructor|].
    simpl in *. apply StronglySorted_inv in Hsorted as [Hs Hall].
    constructor; [by apply IH|].
    apply Forall_fmap. apply Forall_fmap in Hall. exact Hall. }
  unfold AlbumListBox.populate, AlbumListBox.py_sorted.
  rewrite Hkeyed. simpl. rewrite Hsame. apply mapM_Some_2.
  unfold keyed. rewrite <- !list_fmap_compose.
  rewrite Forall2_fmap_l, Forall2_fmap_r.
  apply Forall_Forall2_diag, Forall_forall. intros [k a] Hin. simpl.
  by rewrite (getitem_elem_of albums k a Hnd Hin).
Qed.

End AlbumMore.

(** * The further properties on the sample world *)

(** X2 on the albums page, typing [o] after [c]. *)
Lemma end_filtering_after_typing_witness :
  ∃ w', @SongListBox.perform_filtering sample_env "o" sample_filtered_c = Some w' ∧
    walker (@SongListBox.end_filtering sample_env w') =
      tracks_walker sample_filtered_c ∧
    hotkey_filtering (@SongListBox.end_filtering sample_env w') = false ∧
    filter_box (@SongListBox.end_filtering sample_env w') = "" ∧
    items (@SongListBox.end_filtering sample_env w') = items w'.
Proof.
  apply (@end_filtering_after_typing sample_env "o" sample_filtered_c).
  intros [Hchar _]. discriminate Hchar.
Defined.

(** X4 right after the filter key: B is shown. *)
Lemma empty_query_shows_all_songs_witness :
  SongItem 1 ∈ @SongListBox.get_filtered_items sample_env
                 (@SongListBox.start_filtering sample_env
                    (sample_populated "albums" (Some 2%N))).
Proof.
  apply (@empty_query_shows_all_songs sample_env
           (@SongListBox.start_filtering sample_env
              (sample_populated "albums" (Some 2%N))));
    [reflexivity|vm_compute; reflexivity|].
  split.
  - vm_compute. apply list_elem_of_In. simpl. tauto.
  - exists 1, (SongListItem.mk 2%N "-" "" 1 States.loading false).
    split; vm_compute; reflexivity.
Defined.

(** X11 on [A; B; C]: removing B. *)
Lemma remove_track_isolated_witness :
  ∃ w', @remove_track sample_env 2%N (sample_populated "queue" None) = Some w' ∧
    walker w' =
      filter (λ x, widget_has_track
                     (items (sample_populated "queue" None)) 2%N x = false)
        (walker (sample_populated "queue" None)) ∧
    (∀ i r, walker w' !! i = Some (SongItem r) →
       SongListItem.index <$> items w' !! r =
       (λ _, Z.of_nat i) <$> items (sample_populated "queue" None) !! r) ∧
    (∀ r, SongListItem.state <$> items w' !! r =
          SongListItem.state <$> items (sample_populated "queue" None) !! r).
Proof.
  apply (@remove_track_isolated sample_env 2%N (sample_populated "queue" None)).
  - apply (bool_decide_unpack (NoDup (walker (sample_populated "queue" None)))).
    vm_compute. exact I.
  - vm_compute. repeat constructor; by eexists.
  - intros i x y Hx Hy Hm.
    destruct i as [|[|[|i]]]; vm_compute in Hx, Hy; simplify_eq;
      vm_compute in Hm; try discriminate; vm_compute; reflexivity.
Defined.

(** X12 on [A; B; B; C]: removing B leaves the second B. *)
Lemma remove_track_skips_next_witness :
  ∃ w', @remove_track sample_env 2%N sample_duplicates = Some w' ∧
    walker w' `sublist_of` walker sample_duplicates ∧
    (∀ x, x ∈ walker sample_duplicates →
          widget_has_track (items sample_duplicates) 2%N x = false →
          x ∈ walker w') ∧
    (∀ pre a b post,
       walker sample_duplicates = pre ++ a :: b :: post →
       Forall (λ x, widget_has_track (items sample_duplicates)
                      2%N x = false) pre →
       widget_has_track (items sample_duplicates) 2%N a = true →
       ∃ rest, walker w' = pre ++ b :: rest ∧ rest `sublist_of` post).
Proof.
  apply (@remove_track_skips_next sample_env 2%N sample_duplicates).
  - apply (bool_decide_unpack (NoDup (walker sample_duplicates))).
    vm_compute. exact I.
  - vm_compute. repeat constructor; by eexists.
Defined.

Example remove_track_leaves_second_duplicate :
  walker <$> @remove_track sample_env 2%N sample_duplicates =
    Some [SongItem 0; SongItem 2; SongItem 3] ∧
  (SongListItem.track <$> items sample_duplicates) !! 2 = Some 2%N.
Proof. apply conj; vm_compute; reflexivity. Qed.

(** X13 on the placeholder an empty page shows. *)
Lemma remove_track_placeholder_witness :
  @remove_track sample_env 2%N
    (@SongListBox.set_placeholder sample_env "Select an album."
       (sample_world "albums" None)) = None.
Proof.
  apply (@remove_track_placeholder sample_env 2%N "Select an album." [] []).
  - vm_compute. reflexivity.
  - constructor.
Defined.

(** X17: the popup of A, and its Copy URL button. *)
Lemma popup_press_closes_witness :
  popup (world (@popup_press sample_env sample_cached_url sample_unregister
                  copy_url 0
                  (@context_menu_requested sample_env 0 sample_frame))) = None ∧
  requests (@popup_press sample_env sample_cached_url sample_unregister
              copy_url 0
              (@context_menu_requested sample_env 0 sample_frame)) =
    [clipboard_copy "file:///cache/alpha"].
Proof.
  destruct (@popup_press_closes sample_env sample_cached_url sample_unregister
              copy_url 0 0 (SongListItem.mk 1%N "-" "" 0 States.idle false)
              (@context_menu_requested sample_env 0 sample_frame))
    as (Hpopup & _ & _ & _ & _ & Hreq);
    [vm_compute; reflexivity..|].
  split; [exact Hpopup|]. rewrite Hreq. vm_compute. reflexivity.
Defined.

(** X19 on the idle item of A and on the loading item of B. *)
Lemma play_only_toggles_witness :
  @SongListBox.call_item sample_env SongListItem.play 0
    (sample_populated "albums" (Some 2%N)) =
  sample_populated "albums" (Some 2%N).
Proof.
  rewrite (@play_only_toggles sample_env 0
             (SongListItem.mk 1%N "-" "" 0 States.idle false));
    vm_compute; reflexivity.
Defined.

(** X20 on the loading item of B. *)
Lemma clear_queue_resets_one_item_witness :
  walker_focus (@SongListBox.call_item sample_env SongListItem.clear_queue 1
                  (sample_populated "albums" (Some 2%N))) = Some 0.
Proof.
  apply (@clear_queue_resets_one_item sample_env 1
           (SongListItem.mk 2%N "-" "" 1 States.loading false)).
  vm_compute. reflexivity.
Defined.

(** X21 on four albums in order, two of them equal. *)
Lemma album_populate_keeps_sorted_input_witness :
  AlbumListBox.populate Z.ltb sample_albums_in_order "*" =
  Some ((λ album, AlbumListBox.mk_item album "*") <$>
        sample_albums_in_order.*2).
Proof.
  apply (album_populate_keeps_sorted_input Z.ltb sample_albums_in_order "*").
  - apply (bool_decide_unpack (NoDup sample_albums_in_order.*1)).
    vm_compute. exact I.
  - vm_compute. repeat constructor.
Defined.

Example line1_sample :
  @Line1.update_text sample_env (λ _, ">") (λ _, true)
    (SongListItem.mk 3%N "-" "E" 2 States.playing true) Line1.init =
  Line1.mk "  3 > Coda [01:03]" "E -" "line1_active_focus".
Proof. vm_compute. reflexivity. Qed.

Example format_negative_sample :
  format_0d 2 (-1) = "-1" ∧ format_0d 2 7 = "07" ∧ format_d 3 1000 = "1000" ∧
  Line1.minutes (-1) = (-1)%Z ∧ Line1.seconds (-1) = 59%Z.
Proof. repeat apply conj; vm_compute; reflexivity. Qed.
